(** * window_stress: the layout / jitter / pacing loop of [main.cpp]

    A shallow embedding of [src/main.cpp].  The program is one control loop
    that drives GLFW; the embedding keeps the control flow of [main] and
    replaces the library by

    - an environment [Env] of answers the library gives (does [glfwInit]
      succeed, the monitor work area, the handle returned by each
      [glfwCreateWindow], the input delivered by each [glfwPollEvents], the
      readings of the clock, the output sequence of the random engine), and
    - a [trace] of the calls the program makes, in program order.

    C++ [int] is a 32-bit two's complement integer carried in [Z]; signed
    overflow and [std::clamp] with [hi < lo] are undefined behaviour and end
    the run with [Undefined].  [float] and [double] values are carried as
    exact rationals. *)

From Stdlib Require Import ZArith NArith QArith Qround List String Ascii Bool Lia Lqa.
From Stdlib Require Import Decimal DecimalString.
Import ListNotations.

Local Close Scope Q_scope.
Local Open Scope Z_scope.

(** ** Outcomes and the program monad *)

Inductive ub : Type :=
| SignedOverflow      (* an [int] operation left the range of [int] *)
| ClampInverted       (* [std::clamp(v, lo, hi)] called with [hi < lo] *)
| FloatToIntRange.    (* [(int)f] with [f] outside the range of [int] *)

Inductive result (A : Type) : Type :=
| Ok (a : A)
| Undefined (u : ub)
| OutOfFuel.

Arguments Ok {A} a.
Arguments Undefined {A} u.
Arguments OutOfFuel {A}.

(** ** Data of the program *)

(** [GLFWwindow*]: an address, [0] is [nullptr]. *)
Definition GLFWwindow_ptr := N.

Module Win.
Record t : Type := mk {
  handle : GLFWwindow_ptr;
  r : Q; g : Q; b : Q;
  x : Z; y : Z; w : Z; h : Z
}.
End Win.

Definition WINDOW_COUNT : nat := 100.
Definition TARGET_FPS : Q := 60.
Definition MIN_SIZE : Z := 80.
Definition MAX_SIZE : Z := 220.
Definition JITTER_POS : Z := 8.
Definition JITTER_SIZE : Z := 40.

(** Values of [GLFW/glfw3.h] used by [key_callback]. *)
Definition GLFW_PRESS : Z := 1.
Definition GLFW_KEY_ESCAPE : Z := 256.
Definition GLFW_KEY_Q : Z := 81.

Inductive hint : Type :=
| GLFW_COCOA_RETINA_FRAMEBUFFER
| GLFW_VISIBLE
| GLFW_DECORATED
| GLFW_RESIZABLE
| GLFW_DOUBLEBUFFER.

(** The monitor work area written by [glfwGetMonitorWorkarea]. *)
Record WorkArea : Type := mkWorkArea {
  workX : Z; workY : Z; workW : Z; workH : Z
}.

(** What one [glfwPollEvents] can deliver. *)
Inductive input : Type :=
| KeyInput (win : GLFWwindow_ptr) (key scancode action mods : Z)
| CloseInput (win : GLFWwindow_ptr).

(** Calls into GLFW, OpenGL and the C++ runtime, as they appear in [main]. *)
Inductive call : Type :=
| WindowHint (h : hint) (v : bool)
| Init (ok : bool)
| Stderr (s : string)
| GetPrimaryMonitor
| GetMonitorWorkarea (wa : WorkArea)
| CreateWindow (w h : Z) (title : string) (res : GLFWwindow_ptr)
| SetWindowPos (win : GLFWwindow_ptr) (x y : Z)
| SetKeyCallback (win : GLFWwindow_ptr)
| MakeContextCurrent (win : GLFWwindow_ptr)
| SwapInterval (n : Z)
| PollEvents
| WindowShouldClose (win : GLFWwindow_ptr) (res : bool)
| SetWindowSize (win : GLFWwindow_ptr) (w h : Z)
| Viewport (x y w h : Z)
| ClearColor (r g b a : Q)
| Clear
| SwapBuffers (win : GLFWwindow_ptr)
| ClockNow (t : Z)
| SleepFor (sec : Q)
| DestroyWindow (win : GLFWwindow_ptr)
| Terminate.

(** The answers of the world outside the program. *)
Record Env : Type := mkEnv {
  env_init_ok : bool;                      (* result of [glfwInit] *)
  env_workarea : WorkArea;                 (* filled in by [glfwGetMonitorWorkarea] *)
  env_create : nat -> GLFWwindow_ptr;      (* result of the k-th [glfwCreateWindow], k from 0 *)
  env_poll : nat -> list input;            (* input delivered by the n-th [glfwPollEvents] *)
  env_clock : nat -> Z;                    (* n-th reading of [clock::now()], in ticks *)
  env_mt19937 : N -> nat -> N              (* seed, n |-> n-th output of [std::mt19937] *)
}.

(** Mutable state: the global [g_quit], the random engine, and the part of
    the library's state the program can observe. *)
Record State : Type := mkState {
  g_quit : bool;
  rng_seed : N;
  rng_used : nat;
  creates : nat;
  polls : nat;
  clock_reads : nat;
  key_callbacks : list GLFWwindow_ptr;
  close_flags : list GLFWwindow_ptr;
  trace : list call
}.

Definition initial_state : State :=
  mkState false 0%N 0 0 0 0 [] [] [].

Definition M (A : Type) : Type := State -> result (A * State).

Definition ret {A} (a : A) : M A := fun st => Ok (a, st).

Definition bind {A B} (m : M A) (f : A -> M B) : M B :=
  fun st =>
    match m st with
    | Ok (a, st') => f a st'
    | Undefined u => Undefined u
    | OutOfFuel => OutOfFuel
    end.

Definition undefined {A} (u : ub) : M A := fun _ => Undefined u.
Definition out_of_fuel {A} : M A := fun _ => OutOfFuel.

Declare Scope prog_scope.
Delimit Scope prog_scope with prog.
Notation "x <- c1 ;; c2" := (bind c1 (fun x => c2))
  (at level 61, c1 at next level, right associativity) : prog_scope.
Notation "c1 ;; c2" := (bind c1 (fun _ => c2))
  (at level 61, right associativity) : prog_scope.
Local Open Scope prog_scope.

Definition get : M State := fun st => Ok (st, st).
Definition modify (f : State -> State) : M unit := fun st => Ok (tt, f st).

Definition with_trace (st : State) (t : list call) : State :=
  mkState (g_quit st) (rng_seed st) (rng_used st) (creates st) (polls st)
          (clock_reads st) (key_callbacks st) (close_flags st) t.

(** Record one call in the trace. *)
Definition emit (c : call) : M unit :=
  modify (fun st => with_trace st (trace st ++ [c])).

Definition when (c : bool) (m : M unit) : M unit :=
  if c then m else ret tt.

(** ** C++ [int] *)

Definition INT_MIN : Z := - 2147483648.
Definition INT_MAX : Z := 2147483647.

Definition in_int (z : Z) : bool := (INT_MIN <=? z) && (z <=? INT_MAX).

Definition checked (z : Z) : M Z :=
  if in_int z then ret z else undefined SignedOverflow.

Definition int_add (a b : Z) : M Z := checked (a + b).
Definition int_sub (a b : Z) : M Z := checked (a - b).

(** [(int)f]: truncation towards zero. *)
Definition float_to_int (f : Q) : M Z :=
  let z := Z.quot (Qnum f) (Z.pos (Qden f)) in
  if in_int z then ret z else undefined FloatToIntRange.

(** [std::clamp(v, lo, hi)]; the behaviour is undefined if [hi < lo]. *)
Definition clampz (v lo hi : Z) : Z :=
  if v <? lo then lo else if hi <? v then hi else v.

Definition clamp (v lo hi : Z) : M Z :=
  if hi <? lo then undefined ClampInverted else ret (clampz v lo hi).

(** [std::to_string] on a non-negative [int]. *)
Definition to_string (z : Z) : string := NilZero.string_of_int (Z.to_int z).

Definition newline : string := String (ascii_of_nat 10) EmptyString.

(** The title of the window made for loop counter [i], and the report of
    its failure. *)
Definition title (i : nat) : string :=
  ("Window " ++ to_string (Z.of_nat i + 1))%string.

Definition create_failure (i : nat) : string :=
  ("Failed to create window " ++ to_string (Z.of_nat i + 1) ++ newline)%string.

(** ** The program *)

Section Program.

Context (E : Env).

(** *** Library calls *)

Definition set_quit (st : State) : State :=
  mkState true (rng_seed st) (rng_used st) (creates st) (polls st)
          (clock_reads st) (key_callbacks st) (close_flags st) (trace st).

(** [clock::now().time_since_epoch().count()] *)
Definition clock_now : M Z :=
  st <- get ;;
  let t := env_clock E (clock_reads st) in
  modify (fun st => mkState (g_quit st) (rng_seed st) (rng_used st) (creates st)
                            (polls st) (S (clock_reads st)) (key_callbacks st)
                            (close_flags st) (trace st ++ [ClockNow t])) ;;
  ret t.

(** [std::mt19937 rng{static_cast<uint32_t>(s)}] *)
Definition seed_rng (s : Z) : M unit :=
  modify (fun st => mkState (g_quit st) (Z.to_N (s mod 4294967296)) 0 (creates st)
                            (polls st) (clock_reads st) (key_callbacks st)
                            (close_flags st) (trace st)).

(** [rng()]: the next 32-bit output of the engine. *)
Definition rng_next : M N :=
  st <- get ;;
  let v := (env_mt19937 E (rng_seed st) (rng_used st) mod 4294967296)%N in
  modify (fun st => mkState (g_quit st) (rng_seed st) (S (rng_used st)) (creates st)
                            (polls st) (clock_reads st) (key_callbacks st)
                            (close_flags st) (trace st)) ;;
  ret v.

(** [std::uniform_int_distribution<int>(a, b)(rng)]: a value of [[a, b]]. *)
Definition uniform_int (a b : Z) : M Z :=
  v <- rng_next ;;
  ret (a + Z.of_N v mod (b - a + 1)).

(** [std::uniform_real_distribution<float>(0.f, 1.f)(rng)]: a value of
    [[0, 1)] with the 24 significant bits of a [float]. *)
Definition uni01 : M Q :=
  v <- rng_next ;;
  ret (Z.of_N (v mod 16777216) # 16777216)%Q.

Definition jitterPos : M Z := uniform_int (- JITTER_POS) JITTER_POS.
Definition jitterSize : M Z := uniform_int (- JITTER_SIZE) JITTER_SIZE.
Definition sizeRand : M Z := uniform_int MIN_SIZE MAX_SIZE.

Definition glfwWindowHint (h : hint) (v : bool) : M unit := emit (WindowHint h v).

Definition glfwInit : M bool :=
  emit (Init (env_init_ok E)) ;; ret (env_init_ok E).

Definition fprintf_stderr (s : string) : M unit := emit (Stderr s).

Definition glfwGetPrimaryMonitor : M unit := emit GetPrimaryMonitor.

Definition glfwGetMonitorWorkarea : M WorkArea :=
  emit (GetMonitorWorkarea (env_workarea E)) ;; ret (env_workarea E).

Definition glfwCreateWindow (w h : Z) (title : string) : M GLFWwindow_ptr :=
  st <- get ;;
  let res := env_create E (creates st) in
  modify (fun st => mkState (g_quit st) (rng_seed st) (rng_used st) (S (creates st))
                            (polls st) (clock_reads st) (key_callbacks st)
                            (close_flags st)
                            (trace st ++ [CreateWindow w h title res])) ;;
  ret res.

Definition glfwSetWindowPos (win : GLFWwindow_ptr) (x y : Z) : M unit :=
  emit (SetWindowPos win x y).

Definition glfwSetWindowSize (win : GLFWwindow_ptr) (w h : Z) : M unit :=
  emit (SetWindowSize win w h).

Definition glfwSetKeyCallback (win : GLFWwindow_ptr) : M unit :=
  modify (fun st => mkState (g_quit st) (rng_seed st) (rng_used st) (creates st)
                            (polls st) (clock_reads st) (win :: key_callbacks st)
                            (close_flags st) (trace st ++ [SetKeyCallback win])).

Definition glfwMakeContextCurrent (win : GLFWwindow_ptr) : M unit :=
  emit (MakeContextCurrent win).

Definition glfwSwapInterval (n : Z) : M unit := emit (SwapInterval n).

Definition mem (win : GLFWwindow_ptr) (l : list GLFWwindow_ptr) : bool :=
  existsb (N.eqb win) l.

Definition glfwWindowShouldClose (win : GLFWwindow_ptr) : M bool :=
  st <- get ;;
  let res := mem win (close_flags st) in
  emit (WindowShouldClose win res) ;;
  ret res.

Definition glViewport (x y w h : Z) : M unit := emit (Viewport x y w h).
Definition glClearColor (r g b a : Q) : M unit := emit (ClearColor r g b a).
Definition glClear : M unit := emit Clear.
Definition glfwSwapBuffers (win : GLFWwindow_ptr) : M unit := emit (SwapBuffers win).
Definition glfwDestroyWindow (win : GLFWwindow_ptr) : M unit := emit (DestroyWindow win).
Definition glfwTerminate : M unit := emit Terminate.
Definition sleep_for (sec : Q) : M unit := emit (SleepFor sec).

(** *** [key_callback] *)

Definition key_callback (window : GLFWwindow_ptr) (key scancode action mods : Z)
  : M unit :=
  if action =? GLFW_PRESS then
    if (key =? GLFW_KEY_ESCAPE) || (key =? GLFW_KEY_Q) then modify set_quit
    else ret tt
  else ret tt.

(** One pending input: a key goes to the callback registered for its window,
    a close request raises the window's close flag. *)
Definition deliver (i : input) : M unit :=
  match i with
  | KeyInput win key scancode action mods =>
      st <- get ;;
      if mem win (key_callbacks st) then key_callback win key scancode action mods
      else ret tt
  | CloseInput win =>
      modify (fun st => mkState (g_quit st) (rng_seed st) (rng_used st) (creates st)
                                (polls st) (clock_reads st) (key_callbacks st)
                                (win :: close_flags st) (trace st))
  end.

Fixpoint deliver_all (l : list input) : M unit :=
  match l with
  | [] => ret tt
  | i :: l' => deliver i ;; deliver_all l'
  end.

Definition glfwPollEvents : M unit :=
  st <- get ;;
  let pending := env_poll E (polls st) in
  modify (fun st => mkState (g_quit st) (rng_seed st) (rng_used st) (creates st)
                            (S (polls st)) (clock_reads st) (key_callbacks st)
                            (close_flags st) (trace st ++ [PollEvents])) ;;
  deliver_all pending.

(** *** Creating the windows (lines 84-111) *)

(** The body of the [for] loop for counter [i]; [None] is the [break]. *)
Definition create_one (wa : WorkArea) (i : nat) : M (option Win.t) :=
  w <- sizeRand ;;
  h <- sizeRand ;;
  ux <- uni01 ;;
  dw <- int_sub (workW wa) w ;;
  ox <- float_to_int (ux * inject_Z (Z.max 1 dw))%Q ;;
  x <- int_add (workX wa) ox ;;
  uy <- uni01 ;;
  dh <- int_sub (workH wa) h ;;
  oy <- float_to_int (uy * inject_Z (Z.max 1 dh))%Q ;;
  y <- int_add (workY wa) oy ;;
  win <- glfwCreateWindow w h (title i) ;;
  if (win =? 0)%N then
    fprintf_stderr (create_failure i) ;;
    ret None
  else
    glfwSetWindowPos win x y ;;
    glfwSetKeyCallback win ;;
    r <- uni01 ;;
    g <- uni01 ;;
    b <- uni01 ;;
    glfwMakeContextCurrent win ;;
    glfwSwapInterval 0 ;;
    ret (Some (Win.mk win r g b x y w h)).

(** [for (int i = ...; i < WINDOW_COUNT; ++i)], with [todo] iterations left. *)
Fixpoint create_loop (wa : WorkArea) (todo i : nat) (wins : list Win.t)
  : M (list Win.t) :=
  match todo with
  | O => ret wins
  | S todo' =>
      o <- create_one wa i ;;
      match o with
      | None => ret wins
      | Some rec => create_loop wa todo' (S i) (wins ++ [rec])
      end
  end.

Definition create_windows (wa : WorkArea) : M (list Win.t) :=
  create_loop wa WINDOW_COUNT 0 [].

(** *** One window in one frame (lines 129-155) *)

Definition differs (a b c d : Z) : bool := negb (a =? b) || negb (c =? d).

Definition jitter_window (wa : WorkArea) (w : Win.t) : M Win.t :=
  dw <- jitterSize ;;
  dh <- jitterSize ;;
  dx <- jitterPos ;;
  dy <- jitterPos ;;
  sw <- int_add (Win.w w) dw ;;
  newW <- clamp sw MIN_SIZE MAX_SIZE ;;
  sh <- int_add (Win.h w) dh ;;
  newH <- clamp sh MIN_SIZE MAX_SIZE ;;
  sx <- int_add (Win.x w) dx ;;
  rx <- int_add (workX wa) (workW wa) ;;
  hx <- int_sub rx newW ;;
  newX <- clamp sx (workX wa) hx ;;
  sy <- int_add (Win.y w) dy ;;
  ry <- int_add (workY wa) (workH wa) ;;
  hy <- int_sub ry newH ;;
  newY <- clamp sy (workY wa) hy ;;
  when (differs newW (Win.w w) newH (Win.h w))
       (glfwSetWindowSize (Win.handle w) newW newH) ;;
  when (differs newX (Win.x w) newY (Win.y w))
       (glfwSetWindowPos (Win.handle w) newX newY) ;;
  let w' := Win.mk (Win.handle w) (Win.r w) (Win.g w) (Win.b w) newX newY newW newH in
  glfwMakeContextCurrent (Win.handle w') ;;
  glViewport 0 0 (Win.w w') (Win.h w') ;;
  glClearColor (Win.r w') (Win.g w') (Win.b w') 1 ;;
  glClear ;;
  glfwSwapBuffers (Win.handle w') ;;
  ret w'.

(** [for (auto& w : wins)] with its [break] (lines 123-156); the result is
    the vector after the pass. *)
Fixpoint pass (wa : WorkArea) (wins : list Win.t) : M (list Win.t) :=
  match wins with
  | [] => ret []
  | w :: rest =>
      c <- glfwWindowShouldClose (Win.handle w) ;;
      if c then
        modify set_quit ;; ret (w :: rest)
      else
        w' <- jitter_window wa w ;;
        rest' <- pass wa rest ;;
        ret (w' :: rest')
  end.

(** *** One iteration of the main loop (lines 118-164) *)

Definition ticks_per_second : positive := 1000000000.

Definition dt_target : Q := (1 / TARGET_FPS)%Q.

(** [std::chrono::duration<double>(frameEnd - frameStart).count()] *)
Definition seconds (frameStart frameEnd : Z) : Q :=
  ((frameEnd - frameStart) # ticks_per_second)%Q.

Definition frame (wa : WorkArea) (wins : list Win.t) : M (list Win.t) :=
  frameStart <- clock_now ;;
  glfwPollEvents ;;
  wins' <- pass wa wins ;;
  frameEnd <- clock_now ;;
  let elapsed := seconds frameStart frameEnd in
  let sleepSec := (dt_target - elapsed)%Q in
  when (negb (Qle_bool sleepSec 0)) (sleep_for sleepSec) ;;
  ret wins'.

(** [while (!g_quit)], at most [fuel] iterations. *)
Fixpoint main_loop (wa : WorkArea) (fuel : nat) (wins : list Win.t)
  : M (list Win.t) :=
  st <- get ;;
  if g_quit st then ret wins
  else
    match fuel with
    | O => out_of_fuel
    | S fuel' => wins' <- frame wa wins ;; main_loop wa fuel' wins'
    end.

(** *** Cleanup (lines 168-171) *)

Fixpoint destroy_all (wins : list Win.t) : M unit :=
  match wins with
  | [] => ret tt
  | w :: rest =>
      when (negb (Win.handle w =? 0)%N) (glfwDestroyWindow (Win.handle w)) ;;
      destroy_all rest
  end.

(** *** [main]; the result is the exit code *)

(** Lines 35-78, everything before the windows are created; [None] is the
    early [return 1].  [glfw3.h] of GLFW 3 is assumed, so the work area is
    read with [glfwGetMonitorWorkarea]. *)
Definition startup : M (option WorkArea) :=
  glfwWindowHint GLFW_COCOA_RETINA_FRAMEBUFFER false ;;
  glfwWindowHint GLFW_VISIBLE false ;;
  ok <- glfwInit ;;
  if negb ok then
    fprintf_stderr ("Failed to init GLFW" ++ newline)%string ;;
    ret None
  else
    glfwWindowHint GLFW_DECORATED true ;;
    glfwWindowHint GLFW_RESIZABLE true ;;
    glfwWindowHint GLFW_VISIBLE true ;;
    glfwWindowHint GLFW_DOUBLEBUFFER true ;;
    s <- clock_now ;;
    seed_rng s ;;
    glfwGetPrimaryMonitor ;;
    wa <- glfwGetMonitorWorkarea ;;
    ret (Some wa).

Definition main (fuel : nat) : M Z :=
  o <- startup ;;
  match o with
  | None => ret 1
  | Some wa =>
      wins <- create_windows wa ;;
      wins' <- main_loop wa fuel wins ;;
      destroy_all wins' ;;
      glfwTerminate ;;
      ret 0
  end.

End Program.

(** ** Vocabulary of the specification *)

(** The size bounds and the containment of the rectangle in the work area. *)
Definition sized (w : Win.t) : Prop :=
  MIN_SIZE <= Win.w w <= MAX_SIZE /\ MIN_SIZE <= Win.h w <= MAX_SIZE.

Definition inside (wa : WorkArea) (w : Win.t) : Prop :=
  workX wa <= Win.x w <= workX wa + workW wa - Win.w w /\
  workY wa <= Win.y w <= workY wa + workH wa - Win.h w.

Definition in_bounds (wa : WorkArea) (w : Win.t) : Prop := sized w /\ inside wa w.

Definition in_boundsb (wa : WorkArea) (w : Win.t) : bool :=
  (MIN_SIZE <=? Win.w w) && (Win.w w <=? MAX_SIZE) &&
  (MIN_SIZE <=? Win.h w) && (Win.h w <=? MAX_SIZE) &&
  (workX wa <=? Win.x w) && (Win.x w <=? workX wa + workW wa - Win.w w) &&
  (workY wa <=? Win.y w) && (Win.y w <=? workY wa + workH wa - Win.h w).

(** The work area can hold the largest window. *)
Definition roomy (wa : WorkArea) : Prop :=
  MAX_SIZE <= workW wa /\ MAX_SIZE <= workH wa.

(** The work area is a rectangle whose corners, and the positions one jitter
    step away from it, are values of [int]. *)
Definition representable (wa : WorkArea) : Prop :=
  (INT_MIN + JITTER_POS <= workX wa /\ INT_MIN + JITTER_POS <= workY wa) /\
  (0 <= workW wa <= INT_MAX /\ 0 <= workH wa <= INT_MAX) /\
  (workX wa + workW wa <= INT_MAX /\ workY wa + workH wa <= INT_MAX).

(** The initial rectangle of a record as lines 85-88 draw it. *)
Definition drawn (wa : WorkArea) (w : Win.t) : Prop :=
  sized w /\
  workX wa <= Win.x w < workX wa + Z.max 1 (workW wa - Win.w w) /\
  workY wa <= Win.y w < workY wa + Z.max 1 (workH wa - Win.h w).

(** The calls of one iteration of the creation loop that ends in [o]. *)
Definition create_calls (i : nat) (w h : Z) (win : GLFWwindow_ptr) (o : option Win.t)
  : list call :=
  match o with
  | None => [CreateWindow w h (title i) win; Stderr (create_failure i)]
  | Some rec =>
      [CreateWindow w h (title i) win; SetWindowPos win (Win.x rec) (Win.y rec);
       SetKeyCallback win; MakeContextCurrent win; SwapInterval 0]
  end.

(** The pool and the state at the head of the main loop: after the windows
    are created, and after every iteration the loop runs. *)
Inductive reachable (E : Env) (wa : WorkArea) : list Win.t -> State -> Prop :=
| reach_init s1 wins s2 :
    startup E initial_state = Ok (Some wa, s1) ->
    create_windows E wa s1 = Ok (wins, s2) ->
    reachable E wa wins s2
| reach_frame wins st wins' st' :
    reachable E wa wins st ->
    g_quit st = false ->
    frame E wa wins st = Ok (wins', st') ->
    reachable E wa wins' st'.

(** The run of [m] never ends in the undefined behaviour [u]. *)
Definition never (u : ub) {A} (m : M A) : Prop :=
  forall st, m st <> Undefined u.

(** The state after [n] engine outputs were used and the calls [evs] made. *)
Definition advanced (st : State) (n : nat) (evs : list call) : State :=
  mkState (g_quit st) (rng_seed st) (n + rng_used st) (creates st) (polls st)
          (clock_reads st) (key_callbacks st) (close_flags st) (trace st ++ evs).

(** Projections of a trace. *)
Definition created_handles (tr : list call) : list GLFWwindow_ptr :=
  flat_map (fun c => match c with
                     | CreateWindow _ _ _ res => if (res =? 0)%N then [] else [res]
                     | _ => []
                     end) tr.

Definition destroyed_handles (tr : list call) : list GLFWwindow_ptr :=
  flat_map (fun c => match c with DestroyWindow win => [win] | _ => [] end) tr.

Definition sleeps (tr : list call) : list Q :=
  flat_map (fun c => match c with SleepFor d => [d] | _ => [] end) tr.

Definition resizes (tr : list call) : list (GLFWwindow_ptr * Z * Z) :=
  flat_map (fun c => match c with SetWindowSize win w h => [(win, w, h)] | _ => [] end) tr.

Definition repositions (tr : list call) : list (GLFWwindow_ptr * Z * Z) :=
  flat_map (fun c => match c with SetWindowPos win x y => [(win, x, y)] | _ => [] end) tr.

Definition cleared_colors (tr : list call) : list (Q * Q * Q) :=
  flat_map (fun c => match c with ClearColor r g b _ => [(r, g, b)] | _ => [] end) tr.

Definition color (w : Win.t) : Q * Q * Q := (Win.r w, Win.g w, Win.b w).

(** The calls that render [w] (lines 151-155). *)
Definition render_calls (w : Win.t) : list call :=
  [MakeContextCurrent (Win.handle w); Viewport 0 0 (Win.w w) (Win.h w);
   ClearColor (Win.r w) (Win.g w) (Win.b w) 1; Clear; SwapBuffers (Win.handle w)].

(** [w'] is [w] after one jitter step (lines 130-148): the same handle and
    colour, the size moved by at most [JITTER_SIZE] and clamped, the position
    moved by at most [JITTER_POS] and clamped with well-ordered bounds. *)
Definition jitter_of (wa : WorkArea) (w w' : Win.t) : Prop :=
  exists dw dh dx dy,
    (- JITTER_SIZE <= dw <= JITTER_SIZE /\ - JITTER_SIZE <= dh <= JITTER_SIZE) /\
    (- JITTER_POS <= dx <= JITTER_POS /\ - JITTER_POS <= dy <= JITTER_POS) /\
    let newW := clampz (Win.w w + dw) MIN_SIZE MAX_SIZE in
    let newH := clampz (Win.h w + dh) MIN_SIZE MAX_SIZE in
    let hiX := workX wa + workW wa - newW in
    let hiY := workY wa + workH wa - newH in
    let newX := clampz (Win.x w + dx) (workX wa) hiX in
    let newY := clampz (Win.y w + dy) (workY wa) hiY in
    (workX wa <= hiX /\ workY wa <= hiY) /\
    w' = Win.mk (Win.handle w) (Win.r w) (Win.g w) (Win.b w) newX newY newW newH.

(** The calls that move the on-screen window from [w] to [w'] (lines 142-145). *)
Definition update_calls (w w' : Win.t) : list call :=
  (if differs (Win.w w') (Win.w w) (Win.h w') (Win.h w)
   then [SetWindowSize (Win.handle w) (Win.w w') (Win.h w')] else []) ++
  (if differs (Win.x w') (Win.x w) (Win.y w') (Win.y w)
   then [SetWindowPos (Win.handle w) (Win.x w') (Win.y w')] else []).

(** All calls of the loop body for a window that does not want to close. *)
Definition window_calls (w w' : Win.t) : list call :=
  WindowShouldClose (Win.handle w) false :: update_calls w w' ++ render_calls w'.

Fixpoint pass_calls (ws ws' : list Win.t) : list call :=
  match ws, ws' with
  | w :: rest, w' :: rest' => window_calls w w' ++ pass_calls rest rest'
  | _, _ => []
  end.

Definition closing (st : State) (w : Win.t) : bool :=
  mem (Win.handle w) (close_flags st).

(** The calls of a pass that jitters [pre] into [pre'] and leaves [post]
    alone: [post] is empty, or starts with the window that wants to close. *)
Definition pass_events (pre pre' post : list Win.t) : list call :=
  pass_calls pre pre' ++
  match post with
  | [] => []
  | w :: _ => [WindowShouldClose (Win.handle w) true]
  end.

Definition is_nil {A} (l : list A) : bool :=
  match l with [] => true | _ => false end.

(** The state after [clock::now()] was read once more. *)
Definition ticked (E : Env) (st : State) : State :=
  mkState (g_quit st) (rng_seed st) (rng_used st) (creates st) (polls st)
          (S (clock_reads st)) (key_callbacks st) (close_flags st)
          (trace st ++ [ClockNow (env_clock E (clock_reads st))]).

(** The state in which [glfwPollEvents] starts to deliver its input. *)
Definition polled (st : State) : State :=
  mkState (g_quit st) (rng_seed st) (rng_used st) (creates st) (S (polls st))
          (clock_reads st) (key_callbacks st) (close_flags st)
          (trace st ++ [PollEvents]).

(** A quit condition of the iteration that starts in [st]: its poll delivers
    a press of [Q] or [Esc] to a window with a key callback, or a window of
    the pool has a close request, delivered by this poll or pending. *)
Definition quit_key_pressed (E : Env) (st : State) : Prop :=
  exists win key scancode mods,
    In (KeyInput win key scancode GLFW_PRESS mods) (env_poll E (polls st)) /\
    mem win (key_callbacks st) = true /\
    (key = GLFW_KEY_ESCAPE \/ key = GLFW_KEY_Q).

Definition close_requested (E : Env) (wins : list Win.t) (st : State) : Prop :=
  exists w,
    In w wins /\
    (mem (Win.handle w) (close_flags st) = true \/
     In (CloseInput (Win.handle w)) (env_poll E (polls st))).

(** The calls a pass can make. *)
Definition pass_call (c : call) : bool :=
  match c with
  | WindowShouldClose _ _ | SetWindowSize _ _ _ | SetWindowPos _ _ _
  | MakeContextCurrent _ | Viewport _ _ _ _ | ClearColor _ _ _ _ | Clear
  | SwapBuffers _ => true
  | _ => false
  end.

(** The pacing at the end of a frame that took [elapsed] seconds. *)
Definition pacing (elapsed : Q) : list call :=
  if Qle_bool (dt_target - elapsed) 0 then [] else [SleepFor (dt_target - elapsed)].

(** ** Environments to run the program on

    The engine scrambles its seed and counter, window [k] gets the handle
    [k + 1], creation fails from request [fail] on (counted from 0), every
    clock reading is one millisecond after the previous one, and the third
    poll delivers [third]. *)
Definition demo_env (ok : bool) (wa : WorkArea) (fail : nat) (third : list input) : Env :=
  mkEnv ok wa
        (fun k => if (k <? fail)%nat then N.of_nat (S k) else 0%N)
        (fun n => if (n =? 2)%nat then third else [])
        (fun n => Z.of_nat n * 1000000)
        (fun seed n => ((seed + N.of_nat n) * 2654435761 + 12345)%N).

(** An environment whose engine outputs are the given [draws], then 0. *)
Definition scripted_env (wa : WorkArea) (draws : list N) : Env :=
  mkEnv true wa (fun k => N.of_nat (S k)) (fun _ => [])
        (fun n => Z.of_nat n * 1000000)
        (fun _ n => nth n draws 0%N).

Definition demo_area : WorkArea := mkWorkArea 0 0 1000 800.

Definition demo_win : Win.t := Win.mk 7%N (1 # 2) (1 # 4) (3 # 4) 300 200 100 120.

(** A window at the right edge of [demo_area]. *)
Definition edge_win : Win.t := Win.mk 7%N (1 # 2) (1 # 4) (3 # 4) 900 200 100 120.

(** A pool of three windows and a state in which window 2 wants to close. *)
Definition demo_pool : list Win.t :=
  [Win.mk 1%N (1 # 2) (1 # 4) (3 # 4) 300 200 100 120;
   Win.mk 2%N (1 # 3) (2 # 3) 1 500 400 200 90;
   Win.mk 3%N 0 (1 # 5) (4 # 5) 10 20 80 80].

Definition closing_2 : State := mkState false 0%N 0 3 0 1 [3; 2; 1]%N [2]%N [].

Definition press_Q : list input := [KeyInput 1%N GLFW_KEY_Q 0 GLFW_PRESS 0].
Definition close_2 : list input := [CloseInput 2%N].

(** ** Vocabulary of the further properties *)

(** A pending input that makes [key_callback] set the quit flag: a press of
    [Esc] or [Q] for a window whose key callback is registered. *)
Definition quit_press (callbacks : list GLFWwindow_ptr) (i : input) : bool :=
  match i with
  | KeyInput win key _ action _ =>
      mem win callbacks && (action =? GLFW_PRESS) &&
      ((key =? GLFW_KEY_ESCAPE) || (key =? GLFW_KEY_Q))
  | CloseInput _ => false
  end.

(** A pending close request for the window [h]. *)
Definition close_of (h : GLFWwindow_ptr) (i : input) : bool :=
  match i with
  | CloseInput win => (h =? win)%N
  | KeyInput _ _ _ _ _ => false
  end.

(** [st'] differs from [st] at most in the quit flag and the close flags. *)
Definition input_only (st st' : State) : Prop :=
  rng_seed st' = rng_seed st /\ rng_used st' = rng_used st /\
  creates st' = creates st /\ polls st' = polls st /\
  clock_reads st' = clock_reads st /\ key_callbacks st' = key_callbacks st /\
  trace st' = trace st.





Definition stderr_lines (tr : list call) : list string :=
  flat_map (fun c => match c with Stderr s => [s] | _ => [] end) tr.

Definition titles (tr : list call) : list string :=
  flat_map (fun c => match c with CreateWindow _ _ t _ => [t] | _ => [] end) tr.

(** A record far outside [demo_area], with a size outside the size range. *)
Definition stray_win : Win.t := Win.mk 7%N (1 # 2) (1 # 4) (3 # 4) 5000 (-70) 10 900.

(** The calls that tell the library a size or a position. *)
Definition geometry_call (c : call) : bool :=
  match c with
  | CreateWindow _ _ _ _ | SetWindowSize _ _ _ | SetWindowPos _ _ _ => true
  | _ => false
  end.

(** The calls of the shutdown. *)
Definition is_shutdown (c : call) : bool :=
  match c with
  | DestroyWindow _ | Terminate => true
  | _ => false
  end.

(** What the library was last told about the window [h]: its size, by
    [glfwCreateWindow] or [glfwSetWindowSize], and its position, by
    [glfwSetWindowPos]. *)
Definition told_size_step (h : GLFWwindow_ptr) (acc : option (Z * Z)) (c : call)
  : option (Z * Z) :=
  match c with
  | CreateWindow w' h' _ res => if (res =? h)%N then Some (w', h') else acc
  | SetWindowSize win w' h' => if (win =? h)%N then Some (w', h') else acc
  | _ => acc
  end.

Definition told_pos_step (h : GLFWwindow_ptr) (acc : option (Z * Z)) (c : call)
  : option (Z * Z) :=
  match c with
  | SetWindowPos win x' y' => if (win =? h)%N then Some (x', y') else acc
  | _ => acc
  end.

Definition told_size (tr : list call) (h : GLFWwindow_ptr) : option (Z * Z) :=
  fold_left (told_size_step h) tr None.

Definition told_pos (tr : list call) (h : GLFWwindow_ptr) : option (Z * Z) :=
  fold_left (told_pos_step h) tr None.

(** The record [w] holds the geometry the library was last told. *)
Definition mirrored (tr : list call) (w : Win.t) : Prop :=
  told_size tr (Win.handle w) = Some (Win.w w, Win.h w) /\
  told_pos tr (Win.handle w) = Some (Win.x w, Win.y w).

(** The library never hands out the same non-null handle twice. *)
Definition fresh_handles (E : Env) : Prop :=
  forall i j, env_create E i = env_create E j -> env_create E i <> 0%N -> i = j.

(** ** Reasoning about runs *)

Lemma bind_ok {A B} (m : M A) (f : A -> M B) st r :
  bind m f st = Ok r -> exists a s, m st = Ok (a, s) /\ f a s = Ok r.
Proof.
  unfold bind. destruct (m st) as [[a s]| |]; try discriminate.
  intros H. exists a, s. split; [reflexivity | exact H].
Qed.

Lemma bind_undefined {A B} (m : M A) (f : A -> M B) st u :
  bind m f st = Undefined u ->
  m st = Undefined u \/ exists a s, m st = Ok (a, s) /\ f a s = Undefined u.
Proof.
  unfold bind. destruct (m st) as [[a s]| |]; try discriminate.
  - intros H. right. exists a, s. split; [reflexivity | exact H].
  - intros H. left. injection H as ->. reflexivity.
Qed.

Lemma bind_assoc {A B C} (m : M A) (f : A -> M B) (g : B -> M C) st :
  bind (bind m f) g st = bind m (fun a => bind (f a) g) st.
Proof. unfold bind. destruct (m st) as [[a s] | u |]; reflexivity. Qed.

Lemma bind_ext_ok {A B} (m : M A) (f g : A -> M B) st :
  (forall a s, m st = Ok (a, s) -> f a s = g a s) -> bind m f st = bind m g st.
Proof.
  intros H. unfold bind. destruct (m st) as [[a s] | u |]; auto.
Qed.

Lemma bind_head {A B} (m m' : M A) (f : A -> M B) st :
  m st = m' st -> bind m f st = bind m' f st.
Proof. unfold bind. intros ->. reflexivity. Qed.

Lemma bind_run {A B} (m : M A) (f : A -> M B) st a s :
  m st = Ok (a, s) -> bind m f st = f a s.
Proof. unfold bind. intros ->. reflexivity. Qed.

Lemma checked_ok z st v s :
  checked z st = Ok (v, s) -> v = z /\ s = st /\ INT_MIN <= z <= INT_MAX.
Proof.
  unfold checked, in_int.
  destruct (INT_MIN <=? z) eqn:H1; destruct (z <=? INT_MAX) eqn:H2; simpl;
    try discriminate.
  unfold ret. intros H. injection H as <- <-.
  apply Z.leb_le in H1. apply Z.leb_le in H2. auto.
Qed.

Lemma checked_run z st :
  INT_MIN <= z <= INT_MAX -> checked z st = Ok (z, st).
Proof.
  intros [H1 H2]. unfold checked, in_int.
  apply Z.leb_le in H1. apply Z.leb_le in H2. rewrite H1, H2. reflexivity.
Qed.

Lemma checked_undefined z st u : checked z st = Undefined u -> u = SignedOverflow.
Proof.
  unfold checked. destruct (in_int z); [discriminate |].
  unfold undefined. intros H. injection H as <-. reflexivity.
Qed.

Lemma clamp_ok v lo hi st r s :
  clamp v lo hi st = Ok (r, s) -> lo <= hi /\ r = clampz v lo hi /\ s = st.
Proof.
  unfold clamp. destruct (hi <? lo) eqn:H; [discriminate |].
  unfold ret. intros H0. injection H0 as <- <-.
  apply Z.ltb_ge in H. auto.
Qed.

Lemma clamp_run v lo hi st : lo <= hi -> clamp v lo hi st = Ok (clampz v lo hi, st).
Proof.
  intros H. unfold clamp. apply Z.ltb_ge in H. rewrite H. reflexivity.
Qed.

Lemma clamp_undefined v lo hi st u :
  clamp v lo hi st = Undefined u -> hi < lo.
Proof.
  unfold clamp. destruct (hi <? lo) eqn:H; [| discriminate].
  intros _. apply Z.ltb_lt. exact H.
Qed.

Lemma clampz_range v lo hi : lo <= hi -> lo <= clampz v lo hi <= hi.
Proof.
  intros H. unfold clampz.
  destruct (Z.ltb_spec v lo); [lia |].
  destruct (Z.ltb_spec hi v); lia.
Qed.

Lemma clampz_id v lo hi : lo <= v <= hi -> clampz v lo hi = v.
Proof.
  intros H. unfold clampz.
  destruct (Z.ltb_spec v lo); [lia |].
  destruct (Z.ltb_spec hi v); lia.
Qed.

(** The value a distribution over [[a, b]] makes of an engine output. *)
Lemma uniform_range a b (v : N) : a <= b -> a <= a + Z.of_N v mod (b - a + 1) <= b.
Proof.
  intros H.
  assert (0 <= Z.of_N v mod (b - a + 1) < b - a + 1) by (apply Z.mod_pos_bound; lia).
  lia.
Qed.

(** Every value of [[a, b]] is made of some engine output. *)
Lemma uniform_onto a b z :
  a <= z <= b -> exists v : N, a + Z.of_N v mod (b - a + 1) = z.
Proof.
  intros H. exists (Z.to_N (z - a)).
  rewrite Z2N.id by lia. rewrite Z.mod_small by lia. lia.
Qed.

(** [(int)(u * m)] for [u] in [[0, 1)] and an integer [m >= 1] is in [[0, m)]. *)
Lemma scaled_range (k : Z) (m : Z) :
  0 <= k < 16777216 -> 1 <= m ->
  0 <= Z.quot (Qnum ((k # 16777216) * inject_Z m)) (Z.pos (Qden ((k # 16777216) * inject_Z m))) < m.
Proof.
  intros Hk Hm. simpl.
  rewrite Z.quot_div_nonneg by nia.
  split.
  - apply Z.div_pos; nia.
  - apply Z.div_lt_upper_bound; nia.
Qed.

(** *** States *)

Lemma advanced_advanced st n evs m evs' :
  advanced (advanced st n evs) m evs' = advanced st (m + n) (evs ++ evs').
Proof.
  unfold advanced. simpl. f_equal.
  - lia.
  - symmetry. apply app_assoc.
Qed.

Lemma advanced_eq st n evs m evs' :
  n = m -> evs = evs' -> advanced st n evs = advanced st m evs'.
Proof. intros -> ->. reflexivity. Qed.

Lemma advanced_nothing st : advanced st 0 [] = st.
Proof. destruct st. unfold advanced. simpl. rewrite app_nil_r. reflexivity. Qed.

Lemma set_quit_advanced st n evs :
  advanced (set_quit st) n evs = set_quit (advanced st n evs).
Proof. reflexivity. Qed.

Ltac run_with H := rewrite (bind_run _ _ _ _ _ H).

Section Runs.

Context (E : Env).

(** *** The library calls *)

Lemma emit_ok c st a s : emit c st = Ok (a, s) -> s = advanced st 0 [c].
Proof. unfold emit, modify. intros H. injection H as _ <-. reflexivity. Qed.

Lemma emit_run c st : emit c st = Ok (tt, advanced st 0 [c]).
Proof. reflexivity. Qed.

Lemma uniform_int_run a b st :
  a <= b ->
  exists z, a <= z <= b /\ uniform_int E a b st = Ok (z, advanced st 1 []).
Proof.
  intros Hab.
  exists (a + Z.of_N (env_mt19937 E (rng_seed st) (rng_used st) mod 4294967296)
                mod (b - a + 1)).
  split; [apply uniform_range; exact Hab |].
  unfold uniform_int, rng_next, bind, get, modify, ret, advanced. simpl.
  rewrite app_nil_r. reflexivity.
Qed.

Lemma uniform_int_ok a b st v s :
  a <= b -> uniform_int E a b st = Ok (v, s) -> a <= v <= b /\ s = advanced st 1 [].
Proof.
  intros Hab H. destruct (uniform_int_run a b st Hab) as (z & Hz & Hrun).
  rewrite Hrun in H. injection H as <- <-. auto.
Qed.

Lemma jitterSize_ok st v s :
  jitterSize E st = Ok (v, s) ->
  - JITTER_SIZE <= v <= JITTER_SIZE /\ s = advanced st 1 [].
Proof. apply uniform_int_ok. unfold JITTER_SIZE. lia. Qed.

Lemma jitterPos_ok st v s :
  jitterPos E st = Ok (v, s) ->
  - JITTER_POS <= v <= JITTER_POS /\ s = advanced st 1 [].
Proof. apply uniform_int_ok. unfold JITTER_POS. lia. Qed.

Lemma sizeRand_ok st v s :
  sizeRand E st = Ok (v, s) -> MIN_SIZE <= v <= MAX_SIZE /\ s = advanced st 1 [].
Proof. apply uniform_int_ok. unfold MIN_SIZE, MAX_SIZE. lia. Qed.

Lemma uni01_run st :
  exists k, 0 <= k < 16777216 /\
            uni01 E st = Ok ((k # 16777216)%Q, advanced st 1 []).
Proof.
  exists (Z.of_N ((env_mt19937 E (rng_seed st) (rng_used st) mod 4294967296) mod 16777216)).
  split.
  - generalize (env_mt19937 E (rng_seed st) (rng_used st) mod 4294967296)%N.
    intros n.
    assert (H : (n mod 16777216 < 16777216)%N)
      by (apply N.mod_upper_bound; discriminate).
    revert H. generalize (n mod 16777216)%N. intros; lia.
  - unfold uni01, rng_next, bind, get, modify, ret, advanced. simpl.
    rewrite app_nil_r. reflexivity.
Qed.

Lemma uni01_ok st u s :
  uni01 E st = Ok (u, s) ->
  (exists k, 0 <= k < 16777216 /\ u = (k # 16777216)%Q) /\ s = advanced st 1 [].
Proof.
  intros H. destruct (uni01_run st) as (k & Hk & Hrun).
  rewrite Hrun in H. injection H as <- <-.
  split; [exists k; auto | reflexivity].
Qed.

Lemma when_ok c m st a s :
  when c m st = Ok (a, s) ->
  (c = true /\ m st = Ok (a, s)) \/ (c = false /\ s = st).
Proof.
  destruct c; simpl; intros H.
  - left. auto.
  - right. injection H as _ <-. auto.
Qed.

Lemma when_emit_ok c e st a s :
  when c (emit e) st = Ok (a, s) -> s = advanced st 0 (if c then [e] else []).
Proof.
  destruct c; simpl; intros H.
  - apply emit_ok in H. exact H.
  - injection H as _ <-. symmetry. apply advanced_nothing.
Qed.

Lemma float_to_int_scaled k m st v s :
  0 <= k < 16777216 -> 1 <= m ->
  float_to_int ((k # 16777216) * inject_Z m)%Q st = Ok (v, s) ->
  0 <= v < m /\ s = st.
Proof.
  intros Hk Hm. unfold float_to_int.
  assert (H := scaled_range k m Hk Hm).
  cbv zeta. destruct (in_int _); [| discriminate].
  unfold ret. intros H0. injection H0 as <- <-. auto.
Qed.

Ltac inv_bind H :=
  let v := fresh "v" in
  let s := fresh "s" in
  let Hrun := fresh "Hrun" in
  apply bind_ok in H; destruct H as (v & s & Hrun & H);
  match type of Hrun with
  | int_add _ _ _ = _ =>
      apply checked_ok in Hrun; destruct Hrun as (-> & -> & ?)
  | int_sub _ _ _ = _ =>
      apply checked_ok in Hrun; destruct Hrun as (-> & -> & ?)
  | clamp _ _ _ _ = _ =>
      apply clamp_ok in Hrun; destruct Hrun as (? & -> & ->)
  | jitterSize _ _ = _ =>
      apply jitterSize_ok in Hrun; destruct Hrun as (? & ->)
  | jitterPos _ _ = _ =>
      apply jitterPos_ok in Hrun; destruct Hrun as (? & ->)
  | sizeRand _ _ = _ =>
      apply sizeRand_ok in Hrun; destruct Hrun as (? & ->)
  | uni01 _ _ = _ =>
      apply uni01_ok in Hrun; destruct Hrun as ((? & ? & ->) & ->)
  | when _ (emit _) _ = _ =>
      apply when_emit_ok in Hrun; rewrite Hrun in *; clear Hrun
  | emit _ _ = _ =>
      apply emit_ok in Hrun; rewrite Hrun in *; clear Hrun
  | _ => idtac
  end.

(** *** One window in one frame *)

Lemma jitter_window_ok wa w st w' st' :
  jitter_window E wa w st = Ok (w', st') ->
  jitter_of wa w w' /\
  st' = advanced st 4 (update_calls w w' ++ render_calls w').
Proof.
  unfold jitter_window, glfwSetWindowSize, glfwSetWindowPos, glfwMakeContextCurrent,
    glViewport, glClearColor, glClear, glfwSwapBuffers.
  intros H. do 23 inv_bind H.
  unfold ret in H. injection H as <- <-.
  split.
  - exists v, v0, v1, v2. cbv zeta. repeat split; tauto.
  - rewrite !advanced_advanced. unfold update_calls, render_calls. simpl.
    rewrite <- ?app_assoc. reflexivity.
Qed.

Lemma glfwWindowShouldClose_run win st :
  glfwWindowShouldClose win st =
  Ok (mem win (close_flags st),
      advanced st 0 [WindowShouldClose win (mem win (close_flags st))]).
Proof. reflexivity. Qed.

(** *** The pass over the windows *)

Lemma pass_ok wa wins st wins' st' :
  pass E wa wins st = Ok (wins', st') ->
  exists pre pre' post,
    wins = pre ++ post /\ wins' = pre' ++ post /\
    Forall2 (jitter_of wa) pre pre' /\
    Forall (fun p => closing st p = false) pre /\
    match post with
    | [] => st' = advanced st (4 * List.length pre) (pass_calls pre pre')
    | w :: _ =>
        closing st w = true /\
        st' = set_quit (advanced st (4 * List.length pre)
                          (pass_calls pre pre' ++
                           [WindowShouldClose (Win.handle w) true]))
    end.
Proof.
  revert st wins' st'. induction wins as [| w rest IH]; intros st wins' st' H.
  - simpl in H. unfold ret in H. injection H as <- <-.
    exists [], [], []. repeat split; auto.
    simpl. symmetry. apply advanced_nothing.
  - simpl in H. rewrite (bind_run _ _ _ _ _ (glfwWindowShouldClose_run _ _)) in H.
    destruct (mem (Win.handle w) (close_flags st)) eqn:Hc.
    + unfold bind, modify, ret in H. injection H as <- <-.
      exists [], [], (w :: rest). repeat split; auto.
    + inv_bind H. apply jitter_window_ok in Hrun. destruct Hrun as (Hj & ->).
      inv_bind H. apply IH in Hrun.
      destruct Hrun as (pre & pre' & post & -> & -> & HF & Hcl & Hst).
      unfold ret in H. injection H as <- <-.
      exists (w :: pre), (v :: pre'), post. repeat split; auto.
      destruct post as [| c post].
      * rewrite Hst, !advanced_advanced.
        apply advanced_eq; [simpl List.length; lia |].
        unfold window_calls. simpl. rewrite <- ?app_assoc. reflexivity.
      * destruct Hst as (Hc' & ->). split; [exact Hc' |].
        rewrite !advanced_advanced. f_equal.
        apply advanced_eq; [simpl List.length; lia |].
        unfold window_calls. simpl. rewrite <- ?app_assoc. reflexivity.
Qed.

Lemma pass_fields wa wins st wins' st' :
  pass E wa wins st = Ok (wins', st') ->
  exists pre pre' post,
    wins = pre ++ post /\ wins' = pre' ++ post /\
    Forall2 (jitter_of wa) pre pre' /\
    Forall (fun p => closing st p = false) pre /\
    match post with [] => True | w :: _ => closing st w = true end /\
    trace st' = trace st ++ pass_events pre pre' post /\
    g_quit st' = g_quit st || negb (is_nil post) /\
    rng_used st' = (4 * List.length pre + rng_used st)%nat /\
    clock_reads st' = clock_reads st /\
    close_flags st' = close_flags st.
Proof.
  intros H. apply pass_ok in H.
  destruct H as (pre & pre' & post & -> & -> & HF & Hcl & Hst).
  exists pre, pre', post. unfold pass_events.
  destruct post as [| w post].
  - rewrite Hst, orb_false_r. repeat split; auto.
    simpl. rewrite app_nil_r. reflexivity.
  - destruct Hst as (Hc & ->). rewrite orb_true_r. repeat split; auto.
Qed.

(** *** Input *)

Lemma deliver_ok i st :
  exists st', deliver i st = Ok (tt, st') /\
              trace st' = trace st /\ clock_reads st' = clock_reads st /\
              (g_quit st = true -> g_quit st' = true).
Proof.
  destruct i as [win key scancode action mods | win]; simpl.
  - unfold bind, get, key_callback, modify, ret.
    destruct (mem win (key_callbacks st));
      [destruct (action =? GLFW_PRESS);
       [destruct ((key =? GLFW_KEY_ESCAPE) || (key =? GLFW_KEY_Q)) |] |];
      eexists; repeat split; auto.
  - unfold modify. eexists. repeat split; auto.
Qed.

Lemma deliver_all_ok l : forall st,
  exists st', deliver_all l st = Ok (tt, st') /\
              trace st' = trace st /\ clock_reads st' = clock_reads st /\
              (g_quit st = true -> g_quit st' = true).
Proof.
  induction l as [| i l IH]; intros st; simpl.
  - exists st. repeat split; auto.
  - destruct (deliver_ok i st) as (s & Hrun & Ht & Hc & Hq).
    run_with Hrun. destruct (IH s) as (st' & Hrun' & Ht' & Hc' & Hq').
    exists st'. repeat split; auto; congruence.
Qed.

Lemma glfwPollEvents_ok st :
  exists st', glfwPollEvents E st = Ok (tt, st') /\
              trace st' = trace st ++ [PollEvents] /\
              clock_reads st' = clock_reads st /\
              (g_quit st = true -> g_quit st' = true).
Proof.
  unfold glfwPollEvents, bind, get, modify.
  match goal with
  | |- exists _, deliver_all ?l ?s = _ /\ _ =>
      destruct (deliver_all_ok l s) as (st' & Hrun & Ht & Hc & Hq)
  end.
  exists st'. repeat split; auto.
Qed.

(** *** One iteration *)

Lemma frame_ok wa wins st wins' st' :
  frame E wa wins st = Ok (wins', st') ->
  let t0 := env_clock E (clock_reads st) in
  let t1 := env_clock E (S (clock_reads st)) in
  exists s1 s2,
    trace s1 = trace st ++ [ClockNow t0; PollEvents] /\
    clock_reads s1 = S (clock_reads st) /\
    pass E wa wins s1 = Ok (wins', s2) /\
    trace st' = trace s2 ++ ClockNow t1 :: pacing (seconds t0 t1) /\
    g_quit st' = g_quit s2.
Proof.
  unfold frame. intros H.
  apply bind_ok in H. destruct H as (t0 & sa & Ha & H).
  unfold clock_now, bind, get, modify, ret in Ha. injection Ha as <- <-.
  apply bind_ok in H. destruct H as (u & s1 & Hp & H).
  match type of Hp with
  | glfwPollEvents E ?s = _ =>
      destruct (glfwPollEvents_ok s) as (s1' & Hp' & Ht & Hc & _)
  end.
  rewrite Hp' in Hp. injection Hp as _ <-.
  apply bind_ok in H. destruct H as (ws2 & s2 & Hpass & H).
  destruct (pass_fields _ _ _ _ _ Hpass)
    as (pre & pre' & post & _ & _ & _ & _ & _ & _ & _ & _ & Hck & _).
  apply bind_ok in H. destruct H as (t1 & sb & Hb & H).
  unfold clock_now, bind, get, modify, ret in Hb. injection Hb as <- <-.
  apply bind_ok in H. destruct H as (u' & sc & Hs & H).
  unfold sleep_for in Hs. apply when_emit_ok in Hs. subst sc.
  unfold ret in H. injection H as <- <-.
  cbv zeta. exists s1', s2. simpl in Ht, Hc.
  repeat split; auto.
  - rewrite Ht, <- app_assoc. reflexivity.
  - simpl. rewrite Hck, Hc, <- app_assoc. unfold pacing. simpl.
    destruct (Qle_bool _ 0); reflexivity.
Qed.

(** *** Creating the windows *)

Lemma create_one_ok wa i st o st' :
  create_one E wa i st = Ok (o, st') ->
  let win := env_create E (creates st) in
  creates st' = S (creates st) /\ g_quit st' = g_quit st /\
  exists w h,
    trace st' = trace st ++ create_calls i w h win o /\
    match o with
    | None => win = 0%N
    | Some rec =>
        win <> 0%N /\ Win.handle rec = win /\ Win.w rec = w /\ Win.h rec = h /\
        drawn wa rec
    end.
Proof.
  unfold create_one. intros H. do 10 inv_bind H.
  apply float_to_int_scaled in Hrun; [| assumption | lia].
  destruct Hrun as (Hx & ->).
  apply float_to_int_scaled in Hrun0; [| assumption | lia].
  destruct Hrun0 as (Hy & ->).
  inv_bind H.
  unfold glfwCreateWindow, bind, get, modify, ret in Hrun.
  injection Hrun as <- <-.
  cbv zeta. simpl creates.
  destruct (env_create E (creates st) =? 0)%N eqn:Hwin.
  - unfold fprintf_stderr in H. inv_bind H. unfold ret in H. injection H as <- <-.
    apply N.eqb_eq in Hwin.
    repeat split. exists v, v0. split; [| exact Hwin].
    simpl. rewrite <- ?app_assoc. reflexivity.
  - unfold glfwSetWindowPos, glfwMakeContextCurrent, glfwSwapInterval in H.
    inv_bind H. inv_bind H.
    unfold glfwSetKeyCallback, modify in Hrun. injection Hrun as _ <-.
    do 5 inv_bind H. unfold ret in H. injection H as <- <-.
    apply N.eqb_neq in Hwin.
    repeat split; try assumption; try (simpl; lia).
    exists v, v0. split.
    + simpl. rewrite <- ?app_assoc. reflexivity.
    + repeat split; try assumption; simpl; lia.
Qed.

Lemma float_to_int_scaled_run k m st :
  0 <= k < 16777216 -> 1 <= m <= INT_MAX ->
  exists v, 0 <= v < m /\
            float_to_int ((k # 16777216) * inject_Z m)%Q st = Ok (v, st).
Proof.
  intros Hk Hm. unfold float_to_int.
  assert (H := scaled_range k m Hk (proj1 Hm)).
  cbv zeta. eexists. split; [exact H |].
  unfold in_int.
  replace (INT_MIN <=? _) with true by (symmetry; apply Z.leb_le; unfold INT_MIN; lia).
  replace (_ <=? INT_MAX) with true by (symmetry; apply Z.leb_le; lia).
  reflexivity.
Qed.

Lemma MIN_MAX : MIN_SIZE <= MAX_SIZE.
Proof. unfold MIN_SIZE, MAX_SIZE. lia. Qed.

Ltac run_checked :=
  match goal with
  | |- context [bind (checked ?z) _ ?s] =>
      let R := fresh "R" in
      assert (R : INT_MIN <= z <= INT_MAX)
        by (unfold INT_MIN, INT_MAX, MIN_SIZE, MAX_SIZE, JITTER_POS, JITTER_SIZE in *;
            lia);
      rewrite (bind_run _ _ _ _ _ (checked_run z s R)); clear R
  end.

Ltac run_uni01 :=
  match goal with
  | |- context [bind (uni01 E) _ ?s] =>
      let k := fresh "k" in
      let Hk := fresh "Hk" in
      let Hrun := fresh "Hrun" in
      destruct (uni01_run s) as (k & Hk & Hrun); run_with Hrun; clear Hrun
  end.

Ltac run_scaled :=
  match goal with
  | Hk : 0 <= ?k < 16777216
    |- context [bind (float_to_int ((?k # 16777216) * inject_Z ?m)%Q) _ ?s] =>
      let o := fresh "o" in
      let Ho := fresh "Ho" in
      let Hrun := fresh "Hrun" in
      let R := fresh "R" in
      assert (R : 1 <= m <= INT_MAX)
        by (unfold INT_MIN, INT_MAX, MIN_SIZE, MAX_SIZE in *; lia);
      destruct (float_to_int_scaled_run k m s Hk R) as (o & Ho & Hrun);
      run_with Hrun; clear Hrun R
  end.

Lemma create_one_total wa i st :
  representable wa -> exists o st', create_one E wa i st = Ok (o, st').
Proof.
  intros ((HX & HY) & (HW & HH) & (HR & HB)).
  unfold create_one, sizeRand, int_sub, int_add.
  destruct (uniform_int_run MIN_SIZE MAX_SIZE st MIN_MAX) as (w & Rw & H1).
  run_with H1.
  destruct (uniform_int_run MIN_SIZE MAX_SIZE (advanced st 1 []) MIN_MAX)
    as (h & Rh & H2).
  run_with H2.
  run_uni01. run_checked. run_scaled. run_checked.
  run_uni01. run_checked. run_scaled. run_checked.
  unfold glfwCreateWindow at 1. unfold bind at 1. unfold bind at 1. unfold get at 1.
  unfold bind at 1. unfold modify at 1. unfold ret at 1.
  destruct (_ =? 0)%N.
  - eexists _, _. reflexivity.
  - unfold bind at 1; unfold glfwSetWindowPos at 1; unfold emit at 1;
      unfold modify at 1;
      unfold bind at 1; unfold glfwSetKeyCallback at 1; unfold modify at 1.
    run_uni01. run_uni01. run_uni01.
    eexists _, _. reflexivity.
Qed.

Lemma created_handles_app tr tr' :
  created_handles (tr ++ tr') = created_handles tr ++ created_handles tr'.
Proof. apply flat_map_app. Qed.

Lemma destroyed_handles_app tr tr' :
  destroyed_handles (tr ++ tr') = destroyed_handles tr ++ destroyed_handles tr'.
Proof. apply flat_map_app. Qed.

Lemma create_calls_handles i w h win o :
  match o with None => win = 0%N | Some rec => win <> 0%N /\ Win.handle rec = win end ->
  created_handles (create_calls i w h win o) =
    match o with None => [] | Some rec => [Win.handle rec] end /\
  destroyed_handles (create_calls i w h win o) = [].
Proof.
  destruct o as [rec |]; simpl.
  - intros (Hn & ->). apply N.eqb_neq in Hn. rewrite Hn. auto.
  - intros ->. auto.
Qed.

Lemma create_loop_ok wa todo : forall i acc st wins st',
  create_loop E wa todo i acc st = Ok (wins, st') ->
  exists new evs,
    wins = acc ++ new /\ trace st' = trace st ++ evs /\ g_quit st' = g_quit st /\
    Forall (drawn wa) new /\
    map Win.handle new =
      map (fun j => env_create E (creates st + j)) (seq 0 (List.length new)) /\
    Forall (fun w => Win.handle w <> 0%N) new /\
    created_handles evs = map Win.handle new /\ destroyed_handles evs = [] /\
    (List.length new <= todo)%nat /\
    creates st' = (creates st + List.length new +
                   (if (List.length new <? todo)%nat then 1 else 0))%nat /\
    ((List.length new < todo)%nat ->
     env_create E (creates st + List.length new) = 0%N /\
     In (Stderr (create_failure (i + List.length new))) evs).
Proof.
  induction todo as [| todo IH]; intros i acc st wins st' H.
  - simpl in H. unfold ret in H. injection H as <- <-.
    exists [], []. rewrite !app_nil_r. simpl.
    repeat split; auto; lia.
  - simpl in H. inv_bind H. apply create_one_ok in Hrun. cbv zeta in Hrun.
    destruct Hrun as (Hc & Hq & w & h & Htr & Ho).
    destruct v as [rec |].
    + apply IH in H.
      destruct H as (new & evs & -> & Htr' & Hq' & Hd & Hh & Hnz & Hcr & Hde & Hlen
                     & Hcnt & Hfail).
      destruct Ho as (Hwin & Hrec & Hw & Hh' & Hdr).
      destruct (create_calls_handles i w h (env_create E (creates st)) (Some rec))
        as (C1 & C2); [auto |].
      exists (rec :: new), (create_calls i w h (env_create E (creates st)) (Some rec) ++ evs).
      rewrite Hc in *.
      repeat split.
      * rewrite <- app_assoc. reflexivity.
      * rewrite Htr', Htr, <- app_assoc. reflexivity.
      * congruence.
      * constructor; assumption.
      * simpl. rewrite Nat.add_0_r, Hrec. f_equal.
        rewrite Hh, <- seq_shift, map_map.
        apply map_ext. intros j. f_equal. lia.
      * constructor; [congruence | assumption].
      * rewrite created_handles_app, C1, Hcr. reflexivity.
      * rewrite destroyed_handles_app, C2, Hde. reflexivity.
      * simpl. lia.
      * rewrite Hcnt. simpl List.length.
        change (S (List.length new) <? S todo)%nat with (List.length new <? todo)%nat.
        lia.
      * simpl in H |- *. apply Nat.succ_lt_mono in H. destruct (Hfail H) as (F & _).
        rewrite <- F. f_equal. lia.
      * simpl in H. apply Nat.succ_lt_mono in H. destruct (Hfail H) as (_ & F).
        simpl List.length. apply in_or_app. right.
        replace (i + S (List.length new))%nat with (S i + List.length new)%nat by lia.
        exact F.
    + unfold ret in H. injection H as <- <-.
      destruct (create_calls_handles i w h (env_create E (creates st)) None)
        as (C1 & C2); [auto |].
      exists [], (create_calls i w h (env_create E (creates st)) None).
      rewrite app_nil_r. simpl List.length. rewrite !Nat.add_0_r.
      repeat split; auto; try lia.
      * rewrite Hc. simpl. lia.
      * simpl. auto.
Qed.

Lemma create_loop_total wa todo : forall i acc st,
  representable wa -> exists wins st', create_loop E wa todo i acc st = Ok (wins, st').
Proof.
  induction todo as [| todo IH]; intros i acc st Hwa.
  - simpl. eexists _, _. reflexivity.
  - simpl. destruct (create_one_total wa i st Hwa) as (o & s & Hrun).
    run_with Hrun. destruct o as [rec |].
    + apply IH. exact Hwa.
    + eexists _, _. reflexivity.
Qed.

(** *** The main loop, cleanup and startup *)

Lemma main_loop_quit wa fuel wins st :
  g_quit st = true -> main_loop E wa fuel wins st = Ok (wins, st).
Proof.
  intros Hq. destruct fuel; simpl; unfold bind, get; rewrite Hq; reflexivity.
Qed.

Lemma main_loop_step wa fuel wins st :
  g_quit st = false ->
  main_loop E wa (S fuel) wins st = bind (frame E wa wins) (main_loop E wa fuel) st.
Proof.
  intros Hq. simpl. unfold bind at 1. unfold get. rewrite Hq. reflexivity.
Qed.

Lemma main_loop_ok wa fuel : forall wins st wins' st',
  main_loop E wa fuel wins st = Ok (wins', st') ->
  g_quit st' = true /\
  ((wins', st') = (wins, st) \/
   exists wins1 st1, g_quit st = false /\ frame E wa wins st = Ok (wins1, st1) /\
                     exists fuel', fuel = S fuel' /\
                                   main_loop E wa fuel' wins1 st1 = Ok (wins', st')).
Proof.
  intros wins st wins' st' H.
  destruct (g_quit st) eqn:Hq.
  - rewrite (main_loop_quit _ _ _ _ Hq) in H. injection H as <- <-. auto.
  - destruct fuel as [| fuel].
    + simpl in H. unfold bind, get in H. rewrite Hq in H. discriminate.
    + rewrite (main_loop_step _ _ _ _ Hq) in H.
      apply bind_ok in H. destruct H as (wins1 & st1 & Hf & H).
      assert (Hq' : g_quit st' = true).
      { clear Hf. revert wins1 st1 H. induction fuel as [| fuel IH]; intros wins1 st1 H.
        - simpl in H. unfold bind, get in H.
          destruct (g_quit st1) eqn:Hq1; [| discriminate].
          unfold ret in H. injection H as <- <-. exact Hq1.
        - destruct (g_quit st1) eqn:Hq1.
          + rewrite (main_loop_quit _ _ _ _ Hq1) in H. injection H as <- <-. exact Hq1.
          + rewrite (main_loop_step _ _ _ _ Hq1) in H.
            apply bind_ok in H. destruct H as (wins2 & st2 & _ & H).
            apply IH in H. exact H. }
      split; [exact Hq' |]. right. exists wins1, st1. repeat split; auto.
      exists fuel. auto.
Qed.

Lemma destroy_all_run wins : forall st,
  Forall (fun w => Win.handle w <> 0%N) wins ->
  destroy_all wins st =
  Ok (tt, advanced st 0 (map (fun w => DestroyWindow (Win.handle w)) wins)).
Proof.
  induction wins as [| w rest IH]; intros st Hnz.
  - simpl. unfold ret. rewrite advanced_nothing. reflexivity.
  - inversion Hnz as [| ? ? Hw Hrest]; subst. simpl.
    apply N.eqb_neq in Hw. rewrite Hw. simpl.
    unfold glfwDestroyWindow. run_with (emit_run (DestroyWindow (Win.handle w)) st).
    rewrite IH by assumption. rewrite advanced_advanced. reflexivity.
Qed.

Lemma destroyed_handles_destroy wins :
  destroyed_handles (map (fun w => DestroyWindow (Win.handle w)) wins) =
  map Win.handle wins /\
  created_handles (map (fun w => DestroyWindow (Win.handle w)) wins) = [].
Proof.
  induction wins as [| w rest (IH1 & IH2)]; simpl; [auto |].
  unfold destroyed_handles, created_handles in *. simpl.
  rewrite IH1, IH2. auto.
Qed.

(** The calls of lines 35-78. *)
Lemma startup_run :
  startup E initial_state =
  if env_init_ok E then
    Ok (Some (env_workarea E),
        mkState false (Z.to_N (env_clock E 0 mod 4294967296)) 0 0 0 1 [] []
          [WindowHint GLFW_COCOA_RETINA_FRAMEBUFFER false; WindowHint GLFW_VISIBLE false;
           Init true;
           WindowHint GLFW_DECORATED true; WindowHint GLFW_RESIZABLE true;
           WindowHint GLFW_VISIBLE true; WindowHint GLFW_DOUBLEBUFFER true;
           ClockNow (env_clock E 0); GetPrimaryMonitor;
           GetMonitorWorkarea (env_workarea E)])
  else
    Ok (None,
        mkState false 0%N 0 0 0 0 [] []
          [WindowHint GLFW_COCOA_RETINA_FRAMEBUFFER false; WindowHint GLFW_VISIBLE false;
           Init false; Stderr ("Failed to init GLFW" ++ newline)%string]).
Proof.
  unfold startup, glfwInit, bind, emit, modify, ret. simpl.
  destruct (env_init_ok E); reflexivity.
Qed.

(** *** Geometry *)

Lemma in_boundsb_spec wa w : in_boundsb wa w = true <-> in_bounds wa w.
Proof.
  unfold in_boundsb, in_bounds, sized, inside.
  rewrite !andb_true_iff, !Z.leb_le. tauto.
Qed.

Lemma jitter_of_in_bounds wa w w' : jitter_of wa w w' -> in_bounds wa w'.
Proof.
  intros (dw & dh & dx & dy & _ & _ & H). cbv zeta in H.
  destruct H as ((HX & HY) & ->).
  assert (SW := clampz_range (Win.w w + dw) MIN_SIZE MAX_SIZE MIN_MAX).
  assert (SH := clampz_range (Win.h w + dh) MIN_SIZE MAX_SIZE MIN_MAX).
  assert (PX := clampz_range (Win.x w + dx) _ _ HX).
  assert (PY := clampz_range (Win.y w + dy) _ _ HY).
  unfold in_bounds, sized, inside. simpl. tauto.
Qed.

Lemma jitter_of_same wa w w' :
  jitter_of wa w w' -> Win.handle w' = Win.handle w /\ color w' = color w.
Proof.
  intros (dw & dh & dx & dy & _ & _ & H). cbv zeta in H.
  destruct H as (_ & ->). auto.
Qed.




End Runs.

(** ** The claims *)




(** ** Undefined behaviour that cannot occur *)

Lemma never_bind {A B} (u : ub) (m : M A) (f : A -> M B) (Q : A -> Prop) :
  never u m ->
  (forall st a s, m st = Ok (a, s) -> Q a) ->
  (forall a, Q a -> never u (f a)) ->
  never u (bind m f).
Proof.
  intros Hm HQ Hf st H. apply bind_undefined in H.
  destruct H as [H | (a & s & Hrun & H)].
  - exact (Hm st H).
  - exact (Hf a (HQ st a s Hrun) s H).
Qed.

Lemma never_seq {A B} (u : ub) (m : M A) (f : A -> M B) :
  never u m -> (forall a, never u (f a)) -> never u (bind m f).
Proof.
  intros Hm Hf. apply (never_bind u m f (fun _ => True)); auto.
Qed.

Lemma never_ret {A} u (a : A) : never u (ret a).
Proof. intros st H. discriminate. Qed.

Lemma never_modify u f : never u (modify f).
Proof. intros st H. discriminate. Qed.

Lemma never_get u : never u get.
Proof. intros st H. discriminate. Qed.

Lemma never_emit u c : never u (emit c).
Proof. apply never_modify. Qed.

Lemma never_when u c m : never u m -> never u (when c m).
Proof. destruct c; simpl; [auto | intros _; apply never_ret]. Qed.

Lemma never_checked z : never ClampInverted (checked z).
Proof. intros st H. apply checked_undefined in H. discriminate. Qed.

Lemma never_float_to_int f : never ClampInverted (float_to_int f).
Proof.
  intros st. unfold float_to_int. cbv zeta.
  destruct (in_int _); unfold ret, undefined; discriminate.
Qed.

Lemma never_clamp u v lo hi : lo <= hi -> never u (clamp v lo hi).
Proof. intros H st. rewrite (clamp_run v lo hi st H). discriminate. Qed.

Section Never.

Context (E : Env).

Lemma never_uniform_int u a b : never u (uniform_int E a b).
Proof. intros st. unfold uniform_int, rng_next, bind, get, modify, ret. discriminate. Qed.

Lemma never_uni01 u : never u (uni01 E).
Proof. intros st. unfold uni01, rng_next, bind, get, modify, ret. discriminate. Qed.

Lemma never_clock_now u : never u (clock_now E).
Proof. intros st. unfold clock_now, bind, get, modify, ret. discriminate. Qed.

Lemma never_glfwCreateWindow u w h t : never u (glfwCreateWindow E w h t).
Proof. intros st. unfold glfwCreateWindow, bind, get, modify, ret. discriminate. Qed.

Lemma never_glfwWindowShouldClose u win : never u (glfwWindowShouldClose win).
Proof. intros st. rewrite glfwWindowShouldClose_run. discriminate. Qed.

Lemma never_glfwPollEvents u : never u (glfwPollEvents E).
Proof.
  intros st. destruct (glfwPollEvents_ok E st) as (st' & -> & _). discriminate.
Qed.

Lemma never_startup u : never u (startup E).
Proof.
  intros st. unfold startup, glfwInit, bind, emit, modify, ret, glfwWindowHint.
  simpl. destruct (env_init_ok E); discriminate.
Qed.

Lemma startup_area st o s :
  startup E st = Ok (o, s) -> o = None \/ o = Some (env_workarea E).
Proof.
  unfold startup, glfwInit, bind, emit, modify, ret, glfwWindowHint. simpl.
  destruct (env_init_ok E); simpl; intros H; injection H as <- _; auto.
Qed.

Lemma never_destroy_all u wins : never u (destroy_all wins).
Proof.
  induction wins as [| w rest IH]; simpl.
  - apply never_ret.
  - apply never_seq; [| intros _; exact IH].
    apply never_when. apply never_emit.
Qed.

(** Lines 84-111 call no [std::clamp]. *)
Lemma never_clamp_create_one wa i : never ClampInverted (create_one E wa i).
Proof.
  unfold create_one, sizeRand, int_sub, int_add, fprintf_stderr, glfwSetWindowPos,
    glfwSetKeyCallback, glfwMakeContextCurrent, glfwSwapInterval.
  repeat first
    [ apply never_uniform_int | apply never_uni01 | apply never_glfwCreateWindow
    | apply never_ret | apply never_modify | apply never_emit | apply never_checked
    | apply never_float_to_int
    | apply never_seq; [| intros ?]
    | match goal with |- never _ (if ?c then _ else _) => destruct c end ].
Qed.

Lemma never_clamp_create_loop wa todo : forall i acc,
  never ClampInverted (create_loop E wa todo i acc).
Proof.
  induction todo as [| todo IH]; intros i acc; simpl.
  - apply never_ret.
  - apply never_seq; [apply never_clamp_create_one |].
    intros [rec |]; [apply IH | apply never_ret].
Qed.

(** Lines 135-139: with a roomy work area the bounds of both position clamps
    are well-ordered whatever the record holds. *)
Lemma never_clamp_jitter_window wa w :
  roomy wa -> never ClampInverted (jitter_window E wa w).
Proof.
  intros (HW & HH).
  unfold jitter_window, jitterSize, jitterPos, int_add, int_sub, glfwSetWindowSize,
    glfwSetWindowPos, glfwMakeContextCurrent, glViewport, glClearColor, glClear,
    glfwSwapBuffers.
  do 4 (apply never_seq; [apply never_uniform_int | intros ?]).
  apply never_seq; [apply never_checked | intros sw].
  apply (never_bind _ _ _ (fun newW => MIN_SIZE <= newW <= MAX_SIZE));
    [apply never_clamp, MIN_MAX | | intros newW RW].
  { intros st v s H. apply clamp_ok in H. destruct H as (Hle & -> & _).
    apply clampz_range. exact Hle. }
  apply never_seq; [apply never_checked | intros sh].
  apply (never_bind _ _ _ (fun newH => MIN_SIZE <= newH <= MAX_SIZE));
    [apply never_clamp, MIN_MAX | | intros newH RH].
  { intros st v s H. apply clamp_ok in H. destruct H as (Hle & -> & _).
    apply clampz_range. exact Hle. }
  apply never_seq; [apply never_checked | intros sx].
  apply (never_bind _ _ _ (fun rx => rx = workX wa + workW wa));
    [apply never_checked | | intros rx ->].
  { intros st v s H. apply checked_ok in H. tauto. }
  apply (never_bind _ _ _ (fun hx => hx = workX wa + workW wa - newW));
    [apply never_checked | | intros hx ->].
  { intros st v s H. apply checked_ok in H. tauto. }
  apply never_seq; [apply never_clamp; lia | intros newX].
  apply never_seq; [apply never_checked | intros sy].
  apply (never_bind _ _ _ (fun ry => ry = workY wa + workH wa));
    [apply never_checked | | intros ry ->].
  { intros st v s H. apply checked_ok in H. tauto. }
  apply (never_bind _ _ _ (fun hy => hy = workY wa + workH wa - newH));
    [apply never_checked | | intros hy ->].
  { intros st v s H. apply checked_ok in H. tauto. }
  apply never_seq; [apply never_clamp; lia | intros newY].
  repeat first
    [ apply never_ret | apply never_emit | apply never_when
    | apply never_seq; [| intros ?] ].
Qed.

Lemma never_clamp_pass wa wins :
  roomy wa -> never ClampInverted (pass E wa wins).
Proof.
  intros Hwa. induction wins as [| w rest IH]; simpl.
  - apply never_ret.
  - apply never_seq; [apply never_glfwWindowShouldClose | intros c].
    destruct c.
    + apply never_seq; [apply never_modify | intros _; apply never_ret].
    + apply never_seq; [apply never_clamp_jitter_window; exact Hwa | intros w'].
      apply never_seq; [exact IH | intros rest'; apply never_ret].
Qed.

Lemma never_clamp_frame wa wins :
  roomy wa -> never ClampInverted (frame E wa wins).
Proof.
  intros Hwa. unfold frame, sleep_for.
  apply never_seq; [apply never_clock_now | intros t0].
  apply never_seq; [apply never_glfwPollEvents | intros _].
  apply never_seq; [apply never_clamp_pass; exact Hwa | intros wins'].
  apply never_seq; [apply never_clock_now | intros t1].
  apply never_seq; [apply never_when, never_emit | intros _; apply never_ret].
Qed.

Lemma never_clamp_main_loop wa fuel : forall wins,
  roomy wa -> never ClampInverted (main_loop E wa fuel wins).
Proof.
  induction fuel as [| fuel IH]; intros wins Hwa; simpl;
    (apply never_seq; [apply never_get | intros st]);
    (destruct (g_quit st); [apply never_ret |]).
  - intros s H. discriminate.
  - apply never_seq; [apply never_clamp_frame; exact Hwa | intros wins'].
    apply IH. exact Hwa.
Qed.

Lemma never_clamp_main fuel :
  roomy (env_workarea E) -> never ClampInverted (main E fuel).
Proof.
  intros Hwa. unfold main, create_windows, glfwTerminate.
  apply (never_bind _ _ _ (fun o => o = None \/ o = Some (env_workarea E)));
    [apply never_startup | apply startup_area | intros o [-> | ->]].
  - apply never_ret.
  - apply never_seq; [apply never_clamp_create_loop | intros wins].
    apply never_seq; [apply never_clamp_main_loop; exact Hwa | intros wins'].
    apply never_seq; [apply never_destroy_all | intros _].
    apply never_seq; [apply never_emit | intros _; apply never_ret].
Qed.

End Never.

(** C10.  When [MAX_SIZE <= workW] and [MAX_SIZE <= workH], the bounds of the
    position clamps of lines 138-139 are well-ordered for every window in
    every frame, [workX <= workX + workW - newW] and
    [workY <= workY + workH - newH]: no run of [main] and no step on any
    record ends in [std::clamp] with inverted bounds. *)
Theorem clamp_never_inverted (E : Env) :
  roomy (env_workarea E) ->
  (forall fuel, main E fuel initial_state <> Undefined ClampInverted) /\
  (forall w st, jitter_window E (env_workarea E) w st <> Undefined ClampInverted) /\
  (forall w st w' st',
      jitter_window E (env_workarea E) w st = Ok (w', st') ->
      MIN_SIZE <= Win.w w' <= MAX_SIZE /\ MIN_SIZE <= Win.h w' <= MAX_SIZE /\
      workX (env_workarea E) <= workX (env_workarea E) + workW (env_workarea E) - Win.w w' /\
      workY (env_workarea E) <= workY (env_workarea E) + workH (env_workarea E) - Win.h w').
Proof.
  intros Hwa. split; [| split].
  - intros fuel. apply never_clamp_main. exact Hwa.
  - intros w. apply never_clamp_jitter_window. exact Hwa.
  - intros w st w' st' H. apply jitter_window_ok in H. destruct H as (Hj & _).
    apply jitter_of_in_bounds in Hj. destruct Hj as ((Sw & Sh) & _).
    destruct Hwa as (HW & HH). repeat split; lia.
Qed.

Lemma clamp_never_inverted_witness :
  roomy demo_area /\
  main (demo_env true demo_area 3 close_2) 5 initial_state <> Undefined ClampInverted.
Proof.
  assert (H : roomy (env_workarea (demo_env true demo_area 3 close_2)))
    by (unfold roomy, MAX_SIZE; simpl; lia).
  split; [exact H |].
  apply (proj1 (clamp_never_inverted (demo_env true demo_area 3 close_2) H)).
Defined.

(** ** Initial layout *)

Lemma create_windows_total (E : Env) (wa : WorkArea) (st : State) :
  representable wa -> exists wins st', create_windows E wa st = Ok (wins, st').
Proof.
  intros H. unfold create_windows.
  exact (create_loop_total E wa WINDOW_COUNT 0%nat [] st H).
Qed.




(** ** Degraded initialisation *)

Lemma frame_length (E : Env) wa wins st wins' st' :
  frame E wa wins st = Ok (wins', st') -> List.length wins' = List.length wins.
Proof.
  intros H. apply frame_ok in H. cbv zeta in H.
  destruct H as (s1 & s2 & _ & _ & Hp & _).
  apply pass_fields in Hp. destruct Hp as (pre & pre' & post & -> & -> & HF & _).
  rewrite !length_app. f_equal. symmetry. apply (Forall2_length HF).
Qed.



(** ** Exit code *)

Lemma destroy_all_total wins : forall st,
  exists evs, destroy_all wins st = Ok (tt, advanced st 0 evs).
Proof.
  induction wins as [| w rest IH]; intros st; simpl.
  - exists []. unfold ret. rewrite advanced_nothing. reflexivity.
  - unfold glfwDestroyWindow.
    destruct (negb (Win.handle w =? 0)%N); simpl.
    + run_with (emit_run (DestroyWindow (Win.handle w)) st).
      destruct (IH (advanced st 0 [DestroyWindow (Win.handle w)])) as (evs & ->).
      eexists. rewrite advanced_advanced. reflexivity.
    + unfold bind at 1. unfold ret at 1. apply IH.
Qed.

(** C9.  If [glfwInit] fails, [main] returns 1 after reporting the failure,
    and no window was requested; if it succeeds, a run of [main] whose main
    loop comes to an end returns 0, with the quit flag set. *)
Theorem exit_code (E : Env) (fuel : nat) :
  (env_init_ok E = false ->
   exists st,
     main E fuel initial_state = Ok (1, st) /\
     trace st = [WindowHint GLFW_COCOA_RETINA_FRAMEBUFFER false;
                 WindowHint GLFW_VISIBLE false; Init false;
                 Stderr ("Failed to init GLFW" ++ newline)%string] /\
     creates st = 0%nat /\ created_handles (trace st) = []) /\
  (env_init_ok E = true ->
   exists s1, startup E initial_state = Ok (Some (env_workarea E), s1) /\
   forall wins s2 wins' s3,
     create_windows E (env_workarea E) s1 = Ok (wins, s2) ->
     main_loop E (env_workarea E) fuel wins s2 = Ok (wins', s3) ->
     exists st, main E fuel initial_state = Ok (0, st) /\ g_quit st = true) /\
  (env_init_ok E = true ->
   forall code st, main E fuel initial_state = Ok (code, st) ->
                   code = 0 /\ g_quit st = true).
Proof.
  assert (Hs := startup_run E). split; [| split]; intros Hinit; rewrite Hinit in Hs.
  - eexists. unfold main. rewrite (bind_run _ _ _ _ _ Hs).
    split; [reflexivity |]. simpl. auto.
  - eexists. split; [exact Hs |].
    intros wins s2 wins' s3 Hc Hl. unfold main.
    rewrite (bind_run _ _ _ _ _ Hs), (bind_run _ _ _ _ _ Hc), (bind_run _ _ _ _ _ Hl).
    destruct (destroy_all_total wins' s3) as (evs & Hd).
    rewrite (bind_run _ _ _ _ _ Hd).
    eexists. split; [reflexivity |]. simpl.
    apply main_loop_ok in Hl. tauto.
  - intros code st H. unfold main in H.
    rewrite (bind_run _ _ _ _ _ Hs) in H.
    apply bind_ok in H. destruct H as (wins & s2 & Hc & H).
    apply bind_ok in H. destruct H as (wins' & s3 & Hl & H).
    destruct (destroy_all_total wins' s3) as (evs & Hd).
    rewrite (bind_run _ _ _ _ _ Hd) in H.
    unfold glfwTerminate, emit, bind, modify, ret in H. injection H as <- <-.
    simpl. apply main_loop_ok in Hl. tauto.
Qed.

Lemma exit_code_witness :
  (exists st, main (demo_env false demo_area 3 press_Q) 5 initial_state = Ok (1, st) /\
              created_handles (trace st) = []) /\
  (exists st, main (demo_env true demo_area 3 press_Q) 5 initial_state = Ok (0, st) /\
              g_quit st = true).
Proof.
  split.
  - destruct (proj1 (exit_code (demo_env false demo_area 3 press_Q) 5) eq_refl)
      as (st & H1 & _ & _ & H2).
    exists st. auto.
  - destruct (proj1 (proj2 (exit_code (demo_env true demo_area 3 press_Q) 5)) eq_refl)
      as (s1 & Hs & H).
    rewrite startup_run in Hs. simpl in Hs. injection Hs as <-.
    eapply H; [vm_compute; reflexivity | vm_compute; reflexivity].
Defined.

(** ** Conditional updates *)

Lemma differs_false a b c d : differs a b c d = false <-> (a, c) = (b, d).
Proof.
  unfold differs. rewrite orb_false_iff, !negb_false_iff, !Z.eqb_eq.
  split; [intros (-> & ->); reflexivity | intros H; injection H; auto].
Qed.

Lemma differs_true a b c d : differs a b c d = true <-> (a, c) <> (b, d).
Proof.
  rewrite <- differs_false. destruct (differs a b c d); split; congruence.
Qed.

(** C5.  In one step on a window, [glfwSetWindowSize] is called, once and
    with the new size, exactly when the new [(w, h)] differs from the stored
    one, and [glfwSetWindowPos], once and with the new position, exactly when
    the new [(x, y)] differs from the stored one; each test is independent of
    the other. *)
Theorem conditional_updates (E : Env) (wa : WorkArea) (w : Win.t) (st : State)
        (w' : Win.t) (st' : State) :
  jitter_window E wa w st = Ok (w', st') ->
  exists evs,
    trace st' = trace st ++ evs /\
    ((Win.w w', Win.h w') <> (Win.w w, Win.h w) ->
     resizes evs = [(Win.handle w, Win.w w', Win.h w')]) /\
    ((Win.w w', Win.h w') = (Win.w w, Win.h w) -> resizes evs = []) /\
    ((Win.x w', Win.y w') <> (Win.x w, Win.y w) ->
     repositions evs = [(Win.handle w, Win.x w', Win.y w')]) /\
    ((Win.x w', Win.y w') = (Win.x w, Win.y w) -> repositions evs = []).
Proof.
  intros H. apply jitter_window_ok in H. destruct H as (_ & ->).
  exists (update_calls w w' ++ render_calls w'). split; [reflexivity |].
  unfold update_calls, resizes, repositions, render_calls.
  rewrite !flat_map_app. 
  repeat split; intros Hd.
  - apply differs_true in Hd. rewrite Hd.
    destruct (differs (Win.x w') _ _ _); reflexivity.
  - apply differs_false in Hd. rewrite Hd.
    destruct (differs (Win.x w') _ _ _); reflexivity.
  - apply differs_true in Hd. rewrite Hd.
    destruct (differs (Win.w w') _ _ _); reflexivity.
  - apply differs_false in Hd. rewrite Hd.
    destruct (differs (Win.w w') _ _ _); reflexivity.
Qed.

Lemma conditional_updates_witness :
  exists w' st' evs,
    jitter_window (scripted_env demo_area [41; 40; 8; 8]%N) demo_area demo_win
                  initial_state = Ok (w', st') /\
    trace st' = trace initial_state ++ evs /\
    resizes evs = [(7%N, 101, 120)] /\ repositions evs = [].
Proof.
  eexists _, _. 
  destruct (conditional_updates (scripted_env demo_area [41; 40; 8; 8]%N) demo_area
              demo_win initial_state
              (Win.mk 7%N (1 # 2) (1 # 4) (3 # 4) 300 200 101 120)
              (advanced initial_state 4
                 [SetWindowSize 7%N 101 120; MakeContextCurrent 7%N;
                  Viewport 0 0 101 120;
                  ClearColor (1 # 2) (1 # 4) (3 # 4) 1; Clear; SwapBuffers 7%N]))
    as (evs & Htr & Hr1 & _ & _ & Hp2).
  - vm_compute. reflexivity.
  - exists evs. split; [vm_compute; reflexivity |]. split; [exact Htr |]. split.
    + apply Hr1. simpl. intros H. discriminate.
    + apply Hp2. reflexivity.
Defined.

(** ** A close request ends the pass *)

Section Close.

Context (E : Env).

(** Up to the first window that wants to close, the pass is the pass over
    the windows before it; then it asks that window, sets the quit flag and
    stops. *)
Lemma pass_until_close wa w post : forall pre st,
  Forall (fun p => closing st p = false) pre ->
  closing st w = true ->
  pass E wa (pre ++ w :: post) st =
  bind (pass E wa pre)
       (fun pre' => bind (glfwWindowShouldClose (Win.handle w))
          (fun _ => bind (modify set_quit) (fun _ => ret (pre' ++ w :: post)))) st.
Proof.
  induction pre as [| p pre IH]; intros st Hpre Hw.
  - simpl. unfold closing in Hw.
    rewrite (bind_run _ _ _ _ _ (glfwWindowShouldClose_run _ _)), Hw.
    symmetry. unfold bind at 1. unfold ret at 1.
    rewrite (bind_run _ _ _ _ _ (glfwWindowShouldClose_run _ _)), Hw. reflexivity.
  - inversion Hpre as [| ? ? Hp Hrest]; subst. unfold closing in Hp.
    simpl. rewrite bind_assoc.
    rewrite !(bind_run _ _ _ _ _ (glfwWindowShouldClose_run _ _)), Hp.
    rewrite bind_assoc. apply bind_ext_ok. intros p' s' Hj.
    apply jitter_window_ok in Hj. destruct Hj as (_ & ->).
    match goal with
    | |- bind _ _ ?s = _ => rewrite (bind_head _ _ _ _ (IH s Hrest Hw))
    end.
    rewrite !bind_assoc.
    apply bind_ext_ok. intros pre' s'' _. reflexivity.
Qed.

End Close.

(** C3.  If, in a pass, [w] is the first window for which
    [glfwWindowShouldClose] answers true, the pass is the pass over the
    windows before [w] followed by that one query: the quit flag is set, [w]
    and the windows after it keep their records, no random jitter is drawn
    for them, and no call is made for a window after [w]. *)
Theorem close_ends_pass (E : Env) (wa : WorkArea) (pre : list Win.t) (w : Win.t)
        (post : list Win.t) (st : State) (wins' : list Win.t) (st' : State) :
  Forall (fun p => closing st p = false) pre ->
  closing st w = true ->
  pass E wa (pre ++ w :: post) st = Ok (wins', st') ->
  exists pre' s1,
    pass E wa pre st = Ok (pre', s1) /\
    List.length pre' = List.length pre /\
    wins' = pre' ++ w :: post /\
    g_quit st' = true /\
    rng_used st' = (4 * List.length pre + rng_used st)%nat /\
    trace s1 = trace st ++ pass_calls pre pre' /\
    trace st' = trace s1 ++ [WindowShouldClose (Win.handle w) true].
Proof.
  intros Hpre Hw H. rewrite (pass_until_close E wa w post pre st Hpre Hw) in H.
  apply bind_ok in H. destruct H as (pre' & s1 & Hp & H).
  rewrite (bind_run _ _ _ _ _ (glfwWindowShouldClose_run _ _)) in H.
  unfold bind, modify, ret in H. injection H as <- <-.
  exists pre', s1. split; [exact Hp |].
  apply pass_fields in Hp.
  destruct Hp as (pre0 & pre0' & post0 & Hsplit & -> & HF & Hcl & Hhd & Htr & _ & Hrng
                  & _ & Hcf).
  assert (post0 = []).
  { destruct post0 as [| c post0]; [reflexivity | exfalso].
    rewrite Forall_forall in Hpre.
    rewrite (Hpre c) in Hhd; [discriminate |].
    rewrite Hsplit. apply in_or_app. right. left. reflexivity. }
  subst post0. rewrite app_nil_r in *. subst pre0.
  unfold pass_events in Htr. rewrite app_nil_r in Htr.
  unfold closing in Hw. rewrite Hcf, Hw.
  repeat split; auto.
  symmetry. apply (Forall2_length HF).
Qed.

Lemma close_ends_pass_witness :
  exists wins' st' pre' s1,
    pass (demo_env true demo_area 3 []) demo_area demo_pool closing_2 = Ok (wins', st') /\
    pass (demo_env true demo_area 3 []) demo_area (firstn 1 demo_pool) closing_2
      = Ok (pre', s1) /\
    wins' = pre' ++ skipn 1 demo_pool /\
    g_quit st' = true /\
    rng_used st' = 4%nat /\
    trace st' = trace s1 ++ [WindowShouldClose 2%N true].
Proof.
  destruct (pass (demo_env true demo_area 3 []) demo_area demo_pool closing_2)
    as [[wins' st'] | u |] eqn:H; [| vm_compute in H; discriminate ..].
  destruct (close_ends_pass (demo_env true demo_area 3 []) demo_area
              (firstn 1 demo_pool) (Win.mk 2%N (1 # 3) (2 # 3) 1 500 400 200 90)
              [Win.mk 3%N 0 (1 # 5) (4 # 5) 10 20 80 80] closing_2 wins' st')
    as (pre' & s1 & H1 & H2 & H3 & H4 & H5 & H6 & H7).
  - repeat constructor.
  - reflexivity.
  - exact H.
  - exists wins', st', pre', s1. repeat split; assumption.
Defined.

(** ** What a pass and a frame leave in the trace *)

Lemma pass_calls_are_pass_calls pre pre' post :
  Forall (fun c => pass_call c = true) (pass_events pre pre' post).
Proof.
  unfold pass_events. apply Forall_app. split.
  - revert pre'. induction pre as [| w pre IH]; intros [| w' pre']; simpl;
      try constructor.
    + reflexivity.
    + apply Forall_app. split; [| apply IH].
      unfold update_calls, render_calls. apply Forall_app. split.
      * apply Forall_app. split;
          match goal with |- Forall _ (if ?c then _ else _) => destruct c end;
          repeat constructor.
      * repeat constructor.
  - destruct post; repeat constructor.
Qed.

Lemma flat_map_nothing {A B} (f : A -> list B) (P : A -> Prop) l :
  (forall a, P a -> f a = []) -> Forall P l -> flat_map f l = [].
Proof.
  intros Hf Hl. induction Hl as [| a l Ha _ IH]; simpl; [reflexivity |].
  rewrite (Hf a Ha), IH. reflexivity.
Qed.

Lemma pass_events_quiet pre pre' post :
  created_handles (pass_events pre pre' post) = [] /\
  destroyed_handles (pass_events pre pre' post) = [] /\
  sleeps (pass_events pre pre' post) = [].
Proof.
  repeat split;
    apply (flat_map_nothing _ (fun c => pass_call c = true));
    try apply pass_calls_are_pass_calls;
    intros [] H; try reflexivity; discriminate.
Qed.

Lemma cleared_colors_pass pre pre' post :
  List.length pre = List.length pre' ->
  cleared_colors (pass_events pre pre' post) = map color pre'.
Proof.
  unfold pass_events, cleared_colors. rewrite flat_map_app.
  intros Hlen.
  replace (flat_map _ match post with [] => [] | w :: _ => _ end) with (@nil (Q * Q * Q))
    by (destruct post; reflexivity).
  rewrite app_nil_r. revert pre' Hlen.
  induction pre as [| w pre IH]; intros [| w' pre'] Hlen; simpl in *;
    try reflexivity; try discriminate.
  injection Hlen as Hlen.
  unfold update_calls. rewrite !flat_map_app, IH by exact Hlen.
  destruct (differs (Win.w w') _ _ _); destruct (differs (Win.x w') _ _ _); reflexivity.
Qed.

Lemma jitter_all_same wa pre pre' :
  Forall2 (jitter_of wa) pre pre' ->
  map color pre' = map color pre /\ map Win.handle pre' = map Win.handle pre.
Proof.
  intros HF. induction HF as [| w w' pre pre' Hj _ (IH1 & IH2)]; simpl; [auto |].
  destruct (jitter_of_same wa w w' Hj) as (-> & ->). rewrite IH1, IH2. auto.
Qed.

(** The whole trace of one iteration. *)
Lemma frame_trace (E : Env) wa wins st wins' st' :
  frame E wa wins st = Ok (wins', st') ->
  let t0 := env_clock E (clock_reads st) in
  let t1 := env_clock E (S (clock_reads st)) in
  exists pre pre' post,
    wins = pre ++ post /\ wins' = pre' ++ post /\
    Forall2 (jitter_of wa) pre pre' /\
    trace st' = trace st ++ [ClockNow t0; PollEvents] ++ pass_events pre pre' post
                         ++ ClockNow t1 :: pacing (seconds t0 t1).
Proof.
  intros H. apply frame_ok in H. cbv zeta in H.
  destruct H as (s1 & s2 & Ht1 & _ & Hp & Ht2 & _).
  apply pass_fields in Hp.
  destruct Hp as (pre & pre' & post & -> & -> & HF & _ & _ & Htr & _).
  exists pre, pre', post. repeat split; auto.
  rewrite Ht2, Htr, Ht1, <- !app_assoc. reflexivity.
Qed.

(** ** Colours *)

Lemma frame_colors (E : Env) wa wins st wins' st' :
  frame E wa wins st = Ok (wins', st') ->
  map color wins' = map color wins /\
  map Win.handle wins' = map Win.handle wins /\
  exists evs n,
    trace st' = trace st ++ evs /\
    cleared_colors evs = firstn n (map color wins).
Proof.
  intros H. apply frame_trace in H. cbv zeta in H.
  destruct H as (pre & pre' & post & -> & -> & HF & Htr).
  destruct (jitter_all_same wa pre pre' HF) as (Hc & Hh).
  rewrite !map_app, Hc, Hh. repeat split.
  eexists _, (List.length pre). split; [exact Htr |].
  unfold cleared_colors at 1. rewrite !flat_map_app.
  fold (cleared_colors (pass_events pre pre' post)).
  rewrite (cleared_colors_pass pre pre' post (Forall2_length HF)), Hc.
  simpl. unfold pacing. 
  replace (flat_map _ (if Qle_bool _ 0 then _ else _)) with (@nil (Q * Q * Q))
    by (destruct (Qle_bool _ 0); reflexivity).
  rewrite app_nil_r.
  rewrite <- (length_map color pre), firstn_app, Nat.sub_diag, firstn_all.
  simpl. rewrite app_nil_r. reflexivity.
Qed.



(** ** Pacing *)






(** ** Quitting *)

Lemma mem_cons h a l : mem h (a :: l) = (h =? a)%N || mem h l.
Proof. reflexivity. Qed.

Lemma deliver_effects i st :
  exists st',
    deliver i st = Ok (tt, st') /\
    key_callbacks st' = key_callbacks st /\
    (g_quit st = true -> g_quit st' = true) /\
    (forall h, mem h (close_flags st) = true -> mem h (close_flags st') = true) /\
    (forall h, i = CloseInput h -> mem h (close_flags st') = true) /\
    (forall win key scancode mods,
        i = KeyInput win key scancode GLFW_PRESS mods ->
        mem win (key_callbacks st) = true ->
        key = GLFW_KEY_ESCAPE \/ key = GLFW_KEY_Q ->
        g_quit st' = true).
Proof.
  destruct i as [win key scancode action mods | win]; simpl.
  - unfold bind, get, key_callback, modify, ret.
    destruct (mem win (key_callbacks st)) eqn:Hm.
    + destruct (action =? GLFW_PRESS) eqn:Ha.
      * destruct ((key =? GLFW_KEY_ESCAPE) || (key =? GLFW_KEY_Q)) eqn:Hk.
        -- eexists. repeat split; auto. intros h H. discriminate.
        -- eexists. repeat split; auto; [intros h H; discriminate |].
           intros win' key' sc' mods' H _ Hkey. injection H as _ <- _ _.
           exfalso. apply orb_false_iff in Hk. destruct Hk as (K1 & K2).
           apply Z.eqb_neq in K1. apply Z.eqb_neq in K2. tauto.
      * eexists. repeat split; auto; [intros h H; discriminate |].
        intros win' key' sc' mods' H. injection H as _ _ _ Hact _.
        rewrite Hact in Ha. discriminate.
    + eexists. repeat split; auto; [intros h H; discriminate |].
      intros win' key' sc' mods' H Hm'. injection H as <- _ _ _ _. congruence.
  - unfold modify. eexists. repeat split; auto.
    + intros h H. cbn [close_flags]. rewrite mem_cons, H. apply orb_true_r.
    + intros h H. injection H as <-. cbn [close_flags].
      rewrite mem_cons, N.eqb_refl. reflexivity.
    + intros win' key' sc' mods' H. discriminate.
Qed.

Lemma deliver_all_effects l : forall st,
  exists st',
    deliver_all l st = Ok (tt, st') /\
    key_callbacks st' = key_callbacks st /\
    (g_quit st = true -> g_quit st' = true) /\
    (forall h, mem h (close_flags st) = true -> mem h (close_flags st') = true) /\
    (forall h, In (CloseInput h) l -> mem h (close_flags st') = true) /\
    (forall win key scancode mods,
        In (KeyInput win key scancode GLFW_PRESS mods) l ->
        mem win (key_callbacks st) = true ->
        key = GLFW_KEY_ESCAPE \/ key = GLFW_KEY_Q ->
        g_quit st' = true).
Proof.
  induction l as [| i l IH]; intros st; simpl.
  - exists st. repeat split; auto; intros; contradiction.
  - destruct (deliver_effects i st) as (s & Hrun & Hk & Hq & Hc & Hci & Hki).
    run_with Hrun.
    destruct (IH s) as (st' & Hrun' & Hk' & Hq' & Hc' & Hci' & Hki').
    exists st'. repeat split; auto.
    + congruence.
    + intros h [-> | Hin]; [apply Hc', (Hci h); reflexivity | apply Hci'; exact Hin].
    + intros win key sc mods [-> | Hin] Hm Hkey.
      * apply Hq'. apply (Hki win key sc mods); auto.
      * apply (Hki' win key sc mods); auto. congruence.
Qed.

Lemma frame_parts (E : Env) wa wins st wins' st' :
  frame E wa wins st = Ok (wins', st') ->
  exists s1 s2,
    deliver_all (env_poll E (polls st)) (polled (ticked E st)) = Ok (tt, s1) /\
    pass E wa wins s1 = Ok (wins', s2) /\
    g_quit st' = g_quit s2.
Proof.
  unfold frame. intros H.
  apply bind_ok in H. destruct H as (t0 & sa & Ha & H).
  unfold clock_now, bind, get, modify, ret in Ha. injection Ha as <- <-.
  apply bind_ok in H. destruct H as (u & s1 & Hp & H).
  apply bind_ok in H. destruct H as (ws2 & s2 & Hpass & H).
  apply bind_ok in H. destruct H as (t1 & sb & Hb & H).
  unfold clock_now, bind, get, modify, ret in Hb. injection Hb as <- <-.
  apply bind_ok in H. destruct H as (u' & sc & Hs & H).
  unfold sleep_for in Hs. apply when_emit_ok in Hs. subst sc.
  unfold ret in H. injection H as <- <-.
  exists s1, s2. destruct u. repeat split; auto.
Qed.

Lemma frame_quits (E : Env) wa wins st wins' st' :
  frame E wa wins st = Ok (wins', st') ->
  quit_key_pressed E st \/ close_requested E wins st ->
  g_quit st' = true.
Proof.
  intros H Hquit. apply frame_parts in H. destruct H as (s1 & s2 & Hd & Hp & ->).
  destruct (deliver_all_effects (env_poll E (polls st)) (polled (ticked E st)))
    as (s1' & Hd' & Hk & Hq & Hc & Hci & Hki).
  rewrite Hd' in Hd. injection Hd as <-.
  apply pass_fields in Hp.
  destruct Hp as (pre & pre' & post & -> & _ & _ & Hcl & Hhd & _ & Hg & _).
  rewrite Hg.
  destruct Hquit as [(win & key & sc & mods & Hin & Hm & Hkey) | (w & Hin & Hreq)].
  - rewrite (Hki win key sc mods Hin Hm Hkey). reflexivity.
  - assert (Hw : closing s1' w = true).
    { unfold closing. destruct Hreq as [Hf | Hi]; [apply Hc; exact Hf | apply Hci; exact Hi]. }
    destruct post as [| c post]; [| apply orb_true_r].
    exfalso. rewrite app_nil_r in Hin. rewrite Forall_forall in Hcl.
    rewrite (Hcl w Hin) in Hw. discriminate.
Qed.

Lemma frame_quiet (E : Env) wa wins st wins' st' :
  frame E wa wins st = Ok (wins', st') ->
  map Win.handle wins' = map Win.handle wins /\
  exists evs,
    trace st' = trace st ++ evs /\
    created_handles evs = [] /\ destroyed_handles evs = [].
Proof.
  intros H. destruct (frame_colors E _ _ _ _ _ H) as (_ & Hh & _).
  split; [exact Hh |].
  apply frame_trace in H. cbv zeta in H.
  destruct H as (pre & pre' & post & _ & _ & _ & Htr).
  eexists. split; [exact Htr |].
  destruct (pass_events_quiet pre pre' post) as (Hc & Hd & _).
  rewrite !created_handles_app, !destroyed_handles_app, Hc, Hd.
  unfold pacing. destruct (Qle_bool _ 0); auto.
Qed.

Lemma main_loop_quiet (E : Env) wa fuel : forall wins st wins' st',
  main_loop E wa fuel wins st = Ok (wins', st') ->
  map Win.handle wins' = map Win.handle wins /\
  exists evs,
    trace st' = trace st ++ evs /\
    created_handles evs = [] /\ destroyed_handles evs = [].
Proof.
  induction fuel as [| fuel IH]; intros wins st wins' st' H;
    destruct (proj2 (main_loop_ok E _ _ _ _ _ _ H))
      as [Heq | (wins1 & st1 & _ & Hf & fuel' & Hfuel & Hrest)].
  - injection Heq as -> ->. split; [reflexivity |].
    exists []. rewrite app_nil_r. auto.
  - discriminate.
  - injection Heq as -> ->. split; [reflexivity |].
    exists []. rewrite app_nil_r. auto.
  - injection Hfuel as <-.
    destruct (frame_quiet E _ _ _ _ _ Hf) as (Hh1 & evs1 & Ht1 & C1 & D1).
    destruct (IH _ _ _ _ Hrest) as (Hh2 & evs2 & Ht2 & C2 & D2).
    split; [congruence |].
    exists (evs1 ++ evs2). rewrite Ht2, Ht1, <- app_assoc.
    rewrite created_handles_app, destroyed_handles_app, C1, C2, D1, D2. auto.
Qed.

Lemma main_handles (E : Env) fuel code stf :
  main E fuel initial_state = Ok (code, stf) ->
  destroyed_handles (trace stf) = created_handles (trace stf).
Proof.
  intros H. unfold main in H. assert (Hs := startup_run E).
  destruct (env_init_ok E).
  - rewrite (bind_run _ _ _ _ _ Hs) in H.
    apply bind_ok in H. destruct H as (wins & s2 & Hc & H).
    apply bind_ok in H. destruct H as (wins' & s3 & Hl & H).
    unfold create_windows in Hc. apply create_loop_ok in Hc.
    destruct Hc as (new & evs & Hw & Htr & _ & _ & _ & Hnz & Hcr & Hde & _).
    simpl in Hw. subst wins.
    destruct (main_loop_quiet E _ _ _ _ _ _ Hl) as (Hh & evs' & Htr' & C' & D').
    assert (Hnz' : Forall (fun w => Win.handle w <> 0%N) wins').
    { rewrite Forall_forall in *. intros w Hin. apply (in_map Win.handle) in Hin.
      rewrite Hh in Hin. apply in_map_iff in Hin. destruct Hin as (w0 & Heq & Hin).
      rewrite <- Heq. apply Hnz. exact Hin. }
    rewrite (bind_run _ _ _ _ _ (destroy_all_run wins' s3 Hnz')) in H.
    unfold glfwTerminate, emit, bind, modify, ret in H. injection H as _ <-.
    destruct (destroyed_handles_destroy wins') as (DD & DC).
    simpl trace. rewrite Htr', Htr. simpl trace.
    rewrite !created_handles_app, !destroyed_handles_app.
    rewrite Hcr, Hde, C', D', DD, DC, Hh. simpl. rewrite !app_nil_r. reflexivity.
  - rewrite (bind_run _ _ _ _ _ Hs) in H. unfold ret in H. injection H as _ <-.
    reflexivity.
Qed.

(** C2.  (1) An iteration that starts with the quit flag unset and in which a
    quit condition fires (a press of [Q] or [Esc] delivered by its poll to a
    window with a key callback, or a close request for a window of the pool)
    ends with the flag set, and the main loop returns right after it, for any
    number of iterations it would be allowed; with the flag set at the loop
    head no iteration runs.  (2) In every run of [main] that returns, the
    windows destroyed are, in order and with the same number of occurrences,
    the windows created: each created window is destroyed exactly once. *)
Theorem quit_propagation (E : Env) :
  (forall wa fuel wins st wins' st',
      g_quit st = false ->
      quit_key_pressed E st \/ close_requested E wins st ->
      frame E wa wins st = Ok (wins', st') ->
      g_quit st' = true /\
      main_loop E wa (S fuel) wins st = Ok (wins', st')) /\
  (forall wa fuel wins st,
      g_quit st = true -> main_loop E wa fuel wins st = Ok (wins, st)) /\
  (forall fuel code stf,
      main E fuel initial_state = Ok (code, stf) ->
      destroyed_handles (trace stf) = created_handles (trace stf) /\
      (NoDup (created_handles (trace stf)) ->
       forall h, In h (created_handles (trace stf)) ->
                 count_occ N.eq_dec (destroyed_handles (trace stf)) h = 1%nat)).
Proof.
  split; [| split].
  - intros wa fuel wins st wins' st' Hq Hfire Hf.
    assert (Hq' := frame_quits E _ _ _ _ _ Hf Hfire).
    split; [exact Hq' |].
    rewrite (main_loop_step E _ _ _ _ Hq), (bind_run _ _ _ _ _ Hf).
    apply main_loop_quit. exact Hq'.
  - intros wa fuel wins st Hq. apply main_loop_quit. exact Hq.
  - intros fuel code stf H. assert (Heq := main_handles E _ _ _ H).
    split; [exact Heq |].
    intros Hnd h Hin. rewrite Heq.
    apply NoDup_count_occ'; assumption.
Qed.

Lemma quit_propagation_witness :
  (exists wins' st',
      frame (demo_env true demo_area 3 []) demo_area demo_pool closing_2
        = Ok (wins', st') /\
      g_quit st' = true /\
      main_loop (demo_env true demo_area 3 []) demo_area 7 demo_pool closing_2
        = Ok (wins', st')) /\
  (exists stf,
      main (demo_env true demo_area 3 press_Q) 5 initial_state = Ok (0, stf) /\
      destroyed_handles (trace stf) = created_handles (trace stf)).
Proof.
  split.
  - destruct (frame (demo_env true demo_area 3 []) demo_area demo_pool closing_2)
      as [[wins' st'] | u |] eqn:H; [| vm_compute in H; discriminate ..].
    destruct (proj1 (quit_propagation (demo_env true demo_area 3 []))
                demo_area 6%nat demo_pool closing_2 wins' st') as (H1 & H2).
    + reflexivity.
    + right. exists (Win.mk 2%N (1 # 3) (2 # 3) 1 500 400 200 90).
      split; [right; left; reflexivity | left; reflexivity].
    + exact H.
    + exists wins', st'. auto.
  - assert (Hm : exists stf,
               main (demo_env true demo_area 3 press_Q) 5 initial_state = Ok (0, stf))
      by (eexists; vm_compute; reflexivity).
    destruct Hm as (stf & Hm). exists stf. split; [exact Hm |].
    exact (proj1 (proj2 (proj2 (quit_propagation (demo_env true demo_area 3 press_Q)))
                    5%nat 0 stf Hm)).
Defined.

(** * Further properties of the program *)

(** ** No undefined behaviour *)




Section Totality.

Context (E : Env) (wa : WorkArea).
Hypothesis Hrep : representable wa.
Hypothesis Hroomy : roomy wa.





End Totality.



(** ** Input *)

Lemma deliver_exact i st :
  exists st',
    deliver i st = Ok (tt, st') /\
    input_only st st' /\
    g_quit st' = g_quit st || quit_press (key_callbacks st) i /\
    (forall h, mem h (close_flags st') = mem h (close_flags st) || close_of h i).
Proof.
  destruct i as [win key scancode action mods | win]; simpl.
  - unfold bind, get, key_callback, modify, ret, input_only.
    destruct (mem win (key_callbacks st));
      [destruct (action =? GLFW_PRESS);
       [destruct ((key =? GLFW_KEY_ESCAPE) || (key =? GLFW_KEY_Q)) |] |];
      simpl; eexists; repeat split; simpl; intros;
      rewrite ?orb_false_r, ?orb_true_r; reflexivity.
  - unfold modify, input_only. eexists.
    split; [reflexivity |]. split; [repeat split |]. split.
    + cbn [g_quit quit_press]. rewrite orb_false_r. reflexivity.
    + intros h. cbn [close_flags close_of]. rewrite mem_cons. apply orb_comm.
Qed.

Lemma deliver_all_exact l : forall st,
  exists st',
    deliver_all l st = Ok (tt, st') /\
    input_only st st' /\
    g_quit st' = g_quit st || existsb (quit_press (key_callbacks st)) l /\
    (forall h, mem h (close_flags st') = mem h (close_flags st) || existsb (close_of h) l).
Proof.
  induction l as [| i l IH]; intros st; simpl.
  - exists st. unfold input_only. repeat split; intros; rewrite orb_false_r; reflexivity.
  - destruct (deliver_exact i st) as (s & Hrun & Hio & Hq & Hc).
    run_with Hrun.
    destruct (IH s) as (st' & Hrun' & Hio' & Hq' & Hc').
    exists st'. split; [exact Hrun' |].
    destruct Hio as (A1 & A2 & A3 & A4 & A5 & A6 & A7).
    destruct Hio' as (B1 & B2 & B3 & B4 & B5 & B6 & B7).
    split; [unfold input_only; repeat split; congruence |].
    split.
    + rewrite Hq', Hq, A6, orb_assoc. reflexivity.
    + intros h. rewrite Hc', Hc, orb_assoc. reflexivity.
Qed.

(** X2.  [glfwPollEvents] with [key_callback] (lines 24-31, 120) always
    returns; afterwards the quit flag is set exactly if it was set before or
    the pending input holds a press (not a release or repeat) of [Esc] or [Q]
    for a window with a registered key callback, a window's close flag is up
    exactly if it was up before or the input holds a close request for it,
    and the poll is the only call made. *)
Theorem poll_effects (E : Env) (st : State) :
  exists st',
    glfwPollEvents E st = Ok (tt, st') /\
    g_quit st' =
      g_quit st || existsb (quit_press (key_callbacks st)) (env_poll E (polls st)) /\
    (forall h, mem h (close_flags st') =
               mem h (close_flags st) || existsb (close_of h) (env_poll E (polls st))) /\
    trace st' = trace st ++ [PollEvents] /\
    polls st' = S (polls st) /\
    key_callbacks st' = key_callbacks st /\
    rng_used st' = rng_used st /\ creates st' = creates st /\
    clock_reads st' = clock_reads st.
Proof.
  unfold glfwPollEvents, bind, get, modify.
  destruct (deliver_all_exact (env_poll E (polls st)) (polled st))
    as (st' & Hrun & (A1 & A2 & A3 & A4 & A5 & A6 & A7) & Hq & Hc).
  exists st'. split; [exact Hrun |]. repeat split; assumption.
Qed.

(** ** When an iteration ends the session *)

Lemma frame_shape (E : Env) wa wins st wins' st' :
  frame E wa wins st = Ok (wins', st') ->
  exists s1 s2,
    deliver_all (env_poll E (polls st)) (polled (ticked E st)) = Ok (tt, s1) /\
    pass E wa wins s1 = Ok (wins', s2) /\
    st' = advanced (ticked E s2) 0
            (pacing (seconds (env_clock E (clock_reads st))
                             (env_clock E (clock_reads s2)))).
Proof.
  unfold frame. intros H.
  apply bind_ok in H. destruct H as (t0 & sa & Ha & H).
  unfold clock_now, bind, get, modify, ret in Ha. injection Ha as <- <-.
  apply bind_ok in H. destruct H as (u & s1 & Hp & H).
  apply bind_ok in H. destruct H as (ws2 & s2 & Hpass & H).
  apply bind_ok in H. destruct H as (t1 & sb & Hb & H).
  unfold clock_now, bind, get, modify, ret in Hb. injection Hb as <- <-.
  apply bind_ok in H. destruct H as (u' & sc & Hs & H).
  unfold sleep_for in Hs. apply when_emit_ok in Hs. subst sc.
  unfold ret in H. injection H as <- <-.
  exists s1, s2. destruct u. split; [exact Hp |]. split; [exact Hpass |].
  unfold pacing. destruct (Qle_bool _ 0); reflexivity.
Qed.

Lemma frame_quit_only (E : Env) wa wins st wins' st' :
  g_quit st = false ->
  frame E wa wins st = Ok (wins', st') ->
  g_quit st' = true ->
  quit_key_pressed E st \/ close_requested E wins st.
Proof.
  intros Hq Hf Hq'. apply frame_shape in Hf. destruct Hf as (s1 & s2 & Hd & Hp & ->).
  destruct (deliver_all_exact (env_poll E (polls st)) (polled (ticked E st)))
    as (s1' & Hd' & _ & Hg & Hc).
  rewrite Hd' in Hd. injection Hd as <-.
  apply pass_fields in Hp.
  destruct Hp as (pre & pre' & post & -> & _ & _ & _ & Hhd & _ & Hg2 & _).
  cbn [advanced ticked g_quit] in Hq'. rewrite Hg2, Hg in Hq'.
  cbn [polled ticked g_quit key_callbacks] in Hq'. rewrite Hq in Hq'.
  cbn [orb] in Hq'.
  destruct (existsb (quit_press (key_callbacks st)) (env_poll E (polls st))) eqn:Hk.
  - left. apply existsb_exists in Hk. destruct Hk as (i & Hin & Hi).
    destruct i as [win key scancode action mods | win]; [| discriminate].
    simpl in Hi. apply andb_true_iff in Hi. destruct Hi as (Hi & Hkey).
    apply andb_true_iff in Hi. destruct Hi as (Hm & Ha).
    apply Z.eqb_eq in Ha. subst action.
    exists win, key, scancode, mods. repeat split; auto.
    apply orb_true_iff in Hkey. rewrite !Z.eqb_eq in Hkey. exact Hkey.
  - right. destruct post as [| c post]; [discriminate |].
    exists c. split; [apply in_or_app; right; left; reflexivity |].
    unfold closing in Hhd. rewrite Hc in Hhd.
    cbn [polled ticked close_flags] in Hhd.
    apply orb_true_iff in Hhd. destruct Hhd as [Hflag | Hreq]; [left; exact Hflag |].
    right. apply existsb_exists in Hreq. destruct Hreq as (i & Hin & Hi).
    destruct i as [win key scancode action mods | win]; [discriminate |].
    simpl in Hi. apply N.eqb_eq in Hi. subst win. exact Hin.
Qed.

(** X3.  An iteration of the main loop that starts with the quit flag unset
    ends with the flag set if and only if a quit condition fires in it: its
    poll delivers a press of [Esc] or [Q] to a window with a key callback, or
    a window of the pool has a close request, pending or delivered by this
    poll.  Nothing else ends the session. *)
Theorem quit_exactly (E : Env) (wa : WorkArea) (wins : list Win.t) (st : State)
        (wins' : list Win.t) (st' : State) :
  g_quit st = false ->
  frame E wa wins st = Ok (wins', st') ->
  (g_quit st' = true <-> quit_key_pressed E st \/ close_requested E wins st).
Proof.
  intros Hq Hf. split.
  - apply (frame_quit_only E wa wins st wins' st' Hq Hf).
  - apply (frame_quits E wa wins st wins' st' Hf).
Qed.

Lemma quit_exactly_witness :
  exists wins' st',
    frame (demo_env true demo_area 3 []) demo_area demo_pool closing_2
      = Ok (wins', st') /\
    (g_quit st' = true <->
     quit_key_pressed (demo_env true demo_area 3 []) closing_2 \/
     close_requested (demo_env true demo_area 3 []) demo_pool closing_2).
Proof.
  destruct (frame (demo_env true demo_area 3 []) demo_area demo_pool closing_2)
    as [[wins' st'] | u |] eqn:H; [| vm_compute in H; discriminate ..].
  exists wins', st'. split; [reflexivity |].
  apply (quit_exactly (demo_env true demo_area 3 []) demo_area demo_pool closing_2
           wins' st'); [reflexivity | exact H].
Defined.

(** ** The pool and the library's windows *)

Ltac invert_bind H :=
  let v := fresh "v" in
  let s := fresh "s" in
  let Hrun := fresh "Hrun" in
  apply bind_ok in H; destruct H as (v & s & Hrun & H);
  match type of Hrun with
  | int_add _ _ _ = _ =>
      apply checked_ok in Hrun; destruct Hrun as (-> & -> & ?)
  | int_sub _ _ _ = _ =>
      apply checked_ok in Hrun; destruct Hrun as (-> & -> & ?)
  | sizeRand _ _ = _ =>
      apply sizeRand_ok in Hrun; destruct Hrun as (? & ->)
  | uni01 _ _ = _ =>
      apply uni01_ok in Hrun; destruct Hrun as ((? & ? & ->) & ->)
  | emit _ _ = _ =>
      apply emit_ok in Hrun; rewrite Hrun in *; clear Hrun
  | _ => idtac
  end.

Lemma create_one_callbacks (E : Env) wa i st o st' :
  create_one E wa i st = Ok (o, st') ->
  key_callbacks st' =
  match o with
  | Some rec => Win.handle rec :: key_callbacks st
  | None => key_callbacks st
  end /\
  close_flags st' = close_flags st.
Proof.
  unfold create_one. intros H. do 10 invert_bind H.
  apply float_to_int_scaled in Hrun; [| assumption | lia].
  destruct Hrun as (Hx & ->).
  apply float_to_int_scaled in Hrun0; [| assumption | lia].
  destruct Hrun0 as (Hy & ->).
  invert_bind H.
  unfold glfwCreateWindow, bind, get, modify, ret in Hrun.
  injection Hrun as <- <-.
  destruct (env_create E _ =? 0)%N.
  - unfold fprintf_stderr in H. invert_bind H. unfold ret in H. injection H as <- <-.
    auto.
  - unfold glfwSetWindowPos, glfwMakeContextCurrent, glfwSwapInterval in H.
    invert_bind H. invert_bind H.
    unfold glfwSetKeyCallback, modify in Hrun. injection Hrun as _ <-.
    do 5 invert_bind H. unfold ret in H. injection H as <- <-.
    auto.
Qed.

Lemma create_loop_callbacks (E : Env) wa todo : forall i acc st wins st',
  create_loop E wa todo i acc st = Ok (wins, st') ->
  exists new,
    wins = acc ++ new /\
    key_callbacks st' = List.rev (map Win.handle new) ++ key_callbacks st /\
    close_flags st' = close_flags st.
Proof.
  induction todo as [| todo IH]; intros i acc st wins st' H.
  - simpl in H. unfold ret in H. injection H as <- <-.
    exists []. rewrite app_nil_r. auto.
  - simpl in H. apply bind_ok in H. destruct H as (o & s & Hone & H).
    apply create_one_callbacks in Hone. destruct Hone as (Hk & Hc).
    destruct o as [rec |].
    + apply IH in H. destruct H as (new & -> & Hk' & Hc').
      exists (rec :: new). rewrite <- app_assoc. split; [reflexivity |].
      split; [| congruence].
      rewrite Hk', Hk. simpl. rewrite <- app_assoc. reflexivity.
    + unfold ret in H. injection H as <- <-.
      exists []. rewrite app_nil_r. auto.
Qed.

Lemma pass_callbacks (E : Env) wa wins st wins' st' :
  pass E wa wins st = Ok (wins', st') ->
  key_callbacks st' = key_callbacks st /\ creates st' = creates st.
Proof.
  intros H. apply pass_ok in H.
  destruct H as (pre & pre' & post & _ & _ & _ & _ & Hst).
  destruct post as [| c post]; [subst st' | destruct Hst as (_ & ->)]; auto.
Qed.

Lemma frame_callbacks (E : Env) wa wins st wins' st' :
  frame E wa wins st = Ok (wins', st') ->
  key_callbacks st' = key_callbacks st /\ creates st' = creates st.
Proof.
  intros H. apply frame_shape in H. destruct H as (s1 & s2 & Hd & Hp & ->).
  destruct (deliver_all_exact (env_poll E (polls st)) (polled (ticked E st)))
    as (s1' & Hd' & (_ & _ & A3 & _ & _ & A6 & _) & _).
  rewrite Hd' in Hd. injection Hd as <-.
  apply pass_callbacks in Hp. destruct Hp as (Hk & Hc).
  cbn [advanced ticked key_callbacks creates]. rewrite Hk, Hc, A6, A3. auto.
Qed.

(** X4.  Every pool the main loop reaches holds at most [WINDOW_COUNT]
    records; their handles are, in order, the results of the first
    [glfwCreateWindow] requests, none of them null, so the null test of line
    169 never skips a record; the pool is short of [WINDOW_COUNT] only if the
    next request failed; and the key callback is registered for exactly the
    windows of the pool. *)
Theorem pool_handles (E : Env) (wa : WorkArea) (wins : list Win.t) (st : State) :
  reachable E wa wins st ->
  (List.length wins <= WINDOW_COUNT)%nat /\
  map Win.handle wins = map (env_create E) (seq 0 (List.length wins)) /\
  Forall (fun w => Win.handle w <> 0%N) wins /\
  ((List.length wins < WINDOW_COUNT)%nat -> env_create E (List.length wins) = 0%N) /\
  key_callbacks st = List.rev (map Win.handle wins).
Proof.
  intros Hr. induction Hr as [s1 wins s2 Hs Hc | wins st wins' st' _ IH _ Hf].
  - assert (Hk0 : key_callbacks s1 = [] /\ creates s1 = 0%nat).
    { rewrite startup_run in Hs. destruct (env_init_ok E); [| discriminate].
      injection Hs as _ <-. auto. }
    destruct Hk0 as (Hk0 & Hc0).
    unfold create_windows in Hc. assert (Hc' := Hc).
    apply create_loop_ok in Hc.
    destruct Hc as (new & evs & -> & _ & _ & _ & Hmap & Hnz & _ & _ & Hlen & _ & Hfail).
    apply create_loop_callbacks in Hc'. destruct Hc' as (new' & Heq & Hk & _).
    simpl in Heq. subst new'. rewrite Hc0 in *. simpl in *.
    rewrite Hk, Hk0, app_nil_r. repeat split; auto.
    intros Hlt. apply Hfail. exact Hlt.
  - destruct IH as (I1 & I2 & I3 & I4 & I5).
    destruct (frame_colors E _ _ _ _ _ Hf) as (_ & Hh & _).
    destruct (frame_callbacks E _ _ _ _ _ Hf) as (Hk & _).
    assert (Hl := frame_length E _ _ _ _ _ Hf).
    rewrite Hl, Hh, Hk. repeat split; auto.
    rewrite Forall_forall in *. intros w Hin. apply (in_map Win.handle) in Hin.
    rewrite Hh in Hin. apply in_map_iff in Hin. destruct Hin as (w0 & Heq & Hin).
    rewrite <- Heq. apply I3. exact Hin.
Qed.

Lemma pool_handles_witness :
  exists wins st,
    reachable (demo_env true demo_area 3 press_Q) demo_area wins st /\
    map Win.handle wins = [1; 2; 3]%N /\
    key_callbacks st = [3; 2; 1]%N /\
    env_create (demo_env true demo_area 3 press_Q) (List.length wins) = 0%N.
Proof.
  assert (Hr : exists wins st,
             reachable (demo_env true demo_area 3 press_Q) demo_area wins st /\
             map Win.handle wins = [1; 2; 3]%N).
  { eexists _, _. split.
    - eapply reach_frame.
      + eapply reach_init; [rewrite startup_run; reflexivity | vm_compute; reflexivity].
      + reflexivity.
      + vm_compute. reflexivity.
    - reflexivity. }
  destruct Hr as (wins & st & Hr & Hh).
  destruct (pool_handles (demo_env true demo_area 3 press_Q) demo_area wins st Hr)
    as (_ & _ & _ & H4 & H5).
  exists wins, st. rewrite H5, Hh.
  assert (Hl : List.length wins = 3%nat)
    by (rewrite <- (length_map Win.handle), Hh; reflexivity).
  repeat split; auto.
  apply H4. rewrite Hl. unfold WINDOW_COUNT. lia.
Defined.

(** ** A session without windows *)

Lemma empty_loop (E : Env) wa fuel : forall st,
  g_quit st = false -> key_callbacks st = [] ->
  main_loop E wa fuel [] st = OutOfFuel.
Proof.
  induction fuel as [| fuel IH]; intros st Hq Hk.
  - simpl. unfold bind, get. rewrite Hq. reflexivity.
  - rewrite (main_loop_step E _ _ _ _ Hq).
    destruct (frame E wa [] st) as [[wins' st'] | u |] eqn:Hf.
    + run_with Hf.
      assert (Hl := frame_length E _ _ _ _ _ Hf).
      destruct wins' as [| w wins']; [| discriminate].
      destruct (frame_callbacks E _ _ _ _ _ Hf) as (Hk' & _).
      apply IH; [| congruence].
      destruct (g_quit st') eqn:Hq'; [exfalso | reflexivity].
      destruct (frame_quit_only E _ _ _ _ _ Hq Hf Hq')
        as [(win & key & sc & mods & _ & Hm & _) | (w & Hin & _)].
      * rewrite Hk in Hm. discriminate.
      * exact Hin.
    + exfalso. unfold frame in Hf.
      unfold clock_now at 1 in Hf. unfold bind at 1 in Hf. unfold bind at 1 in Hf.
      unfold get at 1 in Hf. unfold bind at 1 in Hf. unfold modify at 1 in Hf.
      unfold ret at 1 in Hf.
      match type of Hf with
      | bind (glfwPollEvents E) _ ?s = _ =>
          destruct (glfwPollEvents_ok E s) as (s1 & Hp & _)
      end.
      rewrite (bind_run _ _ _ _ _ Hp) in Hf. simpl pass in Hf.
      unfold bind at 1 in Hf. unfold ret at 1 in Hf.
      unfold clock_now, sleep_for, bind, get, modify, ret in Hf.
      destruct (negb _); discriminate.
    + exfalso. unfold frame in Hf.
      unfold clock_now at 1 in Hf. unfold bind at 1 in Hf. unfold bind at 1 in Hf.
      unfold get at 1 in Hf. unfold bind at 1 in Hf. unfold modify at 1 in Hf.
      unfold ret at 1 in Hf.
      match type of Hf with
      | bind (glfwPollEvents E) _ ?s = _ =>
          destruct (glfwPollEvents_ok E s) as (s1 & Hp & _)
      end.
      rewrite (bind_run _ _ _ _ _ Hp) in Hf. simpl pass in Hf.
      unfold bind at 1 in Hf. unfold ret at 1 in Hf.
      unfold clock_now, sleep_for, bind, get, modify, ret in Hf.
      destruct (negb _); discriminate.
Qed.

(** X5.  If [glfwInit] succeeds and the very first [glfwCreateWindow] fails,
    the pool is empty and no key callback is registered, so no quit condition
    can ever fire: [main] never returns, whatever input arrives.  With a
    representable work area it is still looping after any number of
    iterations. *)
Theorem no_window_no_exit (E : Env) :
  env_init_ok E = true ->
  env_create E 0 = 0%N ->
  (forall fuel code st, main E fuel initial_state <> Ok (code, st)) /\
  (representable (env_workarea E) ->
   forall fuel, main E fuel initial_state = OutOfFuel).
Proof.
  intros Hinit Hfail.
  assert (Hs := startup_run E). rewrite Hinit in Hs.
  match type of Hs with _ = Ok (_, ?s) => set (s1 := s) in * end.
  assert (Hloop : forall wins s2 fuel,
             create_windows E (env_workarea E) s1 = Ok (wins, s2) ->
             main E fuel initial_state = OutOfFuel).
  { intros wins s2 fuel Hc. unfold main.
    rewrite (bind_run _ _ _ _ _ Hs), (bind_run _ _ _ _ _ Hc).
    assert (Hc' := Hc). unfold create_windows in Hc, Hc'.
    apply create_loop_ok in Hc.
    destruct Hc as (new & evs & -> & _ & Hq & _ & Hmap & Hnz & _).
    apply create_loop_callbacks in Hc'. destruct Hc' as (new' & Heq & Hk & _).
    simpl in Heq. subst new'.
    destruct new as [| w new].
    - simpl. unfold bind at 1.
      rewrite (empty_loop E (env_workarea E) fuel s2); [reflexivity | | ].
      + rewrite Hq. reflexivity.
      + rewrite Hk. reflexivity.
    - exfalso. inversion Hnz as [| ? ? Hw _]; subst.
      simpl in Hmap. injection Hmap as Hh _. congruence. }
  split.
  - intros fuel code st H.
    destruct (create_windows E (env_workarea E) s1) as [[wins s2] | u |] eqn:Hc.
    + rewrite (Hloop wins s2 fuel eq_refl) in H. discriminate.
    + unfold main in H. rewrite (bind_run _ _ _ _ _ Hs) in H.
      unfold bind in H. rewrite Hc in H. discriminate.
    + unfold main in H. rewrite (bind_run _ _ _ _ _ Hs) in H.
      unfold bind in H. rewrite Hc in H. discriminate.
  - intros Hrep fuel.
    destruct (create_windows_total E (env_workarea E) s1 Hrep) as (wins & s2 & Hc).
    exact (Hloop wins s2 fuel Hc).
Qed.

Lemma no_window_no_exit_witness :
  main (demo_env true demo_area 0 press_Q) 50 initial_state = OutOfFuel.
Proof.
  apply (no_window_no_exit (demo_env true demo_area 0 press_Q)).
  - reflexivity.
  - reflexivity.
  - unfold representable, INT_MIN, INT_MAX, JITTER_POS. simpl. lia.
Defined.

(** ** How far a step moves a window *)

Lemma jitter_of_displacement wa w w' :
  in_bounds wa w -> jitter_of wa w w' ->
  (- JITTER_SIZE <= Win.w w' - Win.w w <= JITTER_SIZE /\
   - JITTER_SIZE <= Win.h w' - Win.h w <= JITTER_SIZE) /\
  (- JITTER_SIZE <= Win.x w' - Win.x w <= JITTER_POS /\
   - JITTER_SIZE <= Win.y w' - Win.y w <= JITTER_POS).
Proof.
  intros ((Sw & Sh) & (Px & Py)) (dw & dh & dx & dy & (Rw & Rh) & (Rx & Ry) & H).
  cbv zeta in H. destruct H as ((HX & HY) & ->). simpl.
  unfold JITTER_SIZE, JITTER_POS, MIN_SIZE, MAX_SIZE in *.
  unfold clampz in *.
  repeat match goal with
         | |- context [if ?a <? ?b then _ else _] => destruct (Z.ltb_spec a b)
         | H : context [if ?a <? ?b then _ else _] |- _ => destruct (Z.ltb_spec a b)
         end; lia.
Qed.

(** X6.  One step on a record that is within bounds changes its width and
    its height by at most [JITTER_SIZE] each, and moves it by at most
    [JITTER_POS] to the right and down but by up to [JITTER_SIZE] to the left
    and up: a window that grows at the far edge is pushed back by the second
    clamp.  The handle and the colour stay. *)
Theorem step_displacement (E : Env) (wa : WorkArea) (w : Win.t) (st : State)
        (w' : Win.t) (st' : State) :
  in_bounds wa w ->
  jitter_window E wa w st = Ok (w', st') ->
  (- JITTER_SIZE <= Win.w w' - Win.w w <= JITTER_SIZE /\
   - JITTER_SIZE <= Win.h w' - Win.h w <= JITTER_SIZE) /\
  (- JITTER_SIZE <= Win.x w' - Win.x w <= JITTER_POS /\
   - JITTER_SIZE <= Win.y w' - Win.y w <= JITTER_POS) /\
  Win.handle w' = Win.handle w /\ color w' = color w.
Proof.
  intros Hin H. apply jitter_window_ok in H. destruct H as (Hj & _).
  destruct (jitter_of_displacement wa w w' Hin Hj) as (Hs & Hp).
  destruct (jitter_of_same wa w w' Hj) as (Hh & Hc).
  auto.
Qed.

Lemma step_displacement_witness :
  exists w' st',
    jitter_window (scripted_env demo_area [80; 40; 8; 8]%N) demo_area edge_win
                  initial_state = Ok (w', st') /\
    Win.w w' - Win.w edge_win = JITTER_SIZE /\
    Win.x w' - Win.x edge_win = - JITTER_SIZE /\
    - JITTER_SIZE <= Win.y w' - Win.y edge_win <= JITTER_POS.
Proof.
  destruct (jitter_window (scripted_env demo_area [80; 40; 8; 8]%N) demo_area edge_win
              initial_state) as [[w' st'] | u |] eqn:H; [| vm_compute in H; discriminate ..].
  destruct (step_displacement (scripted_env demo_area [80; 40; 8; 8]%N) demo_area
              edge_win initial_state w' st') as (_ & (_ & Hy) & _).
  - unfold in_bounds, sized, inside, MIN_SIZE, MAX_SIZE. simpl. lia.
  - exact H.
  - exists w', st'. split; [reflexivity |].
    vm_compute in H. injection H as <- _. simpl in *. repeat split; lia.
Defined.

(** ** Cleanup *)

(** The cleanup loop calls [glfwDestroyWindow] for the non-null handles. *)
Lemma destroy_all_filter (wins : list Win.t) (st : State) :
  destroy_all wins st =
  Ok (tt, advanced st 0
            (map DestroyWindow
                 (filter (fun h => negb (h =? 0)%N) (map Win.handle wins)))).
Proof.
  revert st. induction wins as [| w rest IH]; intros st; simpl.
  - unfold ret. rewrite advanced_nothing. reflexivity.
  - unfold glfwDestroyWindow. destruct (negb (Win.handle w =? 0)%N); simpl.
    + run_with (emit_run (DestroyWindow (Win.handle w)) st).
      rewrite IH, advanced_advanced. reflexivity.
    + unfold bind at 1. unfold ret at 1. apply IH.
Qed.

(** ** The frame rate *)



(** ** Presenting the windows *)







(** ** Shutdown *)

Lemma frame_no_shutdown (E : Env) wa wins st wins' st' :
  frame E wa wins st = Ok (wins', st') ->
  exists evs, trace st' = trace st ++ evs /\
              Forall (fun c => is_shutdown c = false) evs.
Proof.
  intros H. apply frame_trace in H. cbv zeta in H.
  destruct H as (pre & pre' & post & _ & _ & _ & Htr).
  eexists. split; [exact Htr |].
  apply Forall_app. split; [repeat constructor |].
  apply Forall_app. split.
  - eapply Forall_impl; [| apply pass_calls_are_pass_calls].
    intros [] Hc; try reflexivity; discriminate.
  - constructor; [reflexivity |].
    unfold pacing. destruct (Qle_bool _ 0); repeat constructor.
Qed.

Lemma main_loop_no_shutdown (E : Env) wa fuel : forall wins st wins' st',
  main_loop E wa fuel wins st = Ok (wins', st') ->
  exists evs, trace st' = trace st ++ evs /\
              Forall (fun c => is_shutdown c = false) evs.
Proof.
  induction fuel as [| fuel IH]; intros wins st wins' st' H;
    destruct (proj2 (main_loop_ok E _ _ _ _ _ _ H))
      as [Heq | (wins1 & st1 & _ & Hf & fuel' & Hfuel & Hrest)].
  - injection Heq as -> ->. exists []. rewrite app_nil_r. auto.
  - discriminate.
  - injection Heq as -> ->. exists []. rewrite app_nil_r. auto.
  - injection Hfuel as <-.
    destruct (frame_no_shutdown E _ _ _ _ _ Hf) as (evs1 & Ht1 & F1).
    destruct (IH _ _ _ _ Hrest) as (evs2 & Ht2 & F2).
    exists (evs1 ++ evs2). rewrite Ht2, Ht1, <- app_assoc.
    split; [reflexivity | apply Forall_app; auto].
Qed.

Lemma create_loop_no_shutdown (E : Env) wa todo : forall i acc st wins st',
  create_loop E wa todo i acc st = Ok (wins, st') ->
  exists evs, trace st' = trace st ++ evs /\
              Forall (fun c => is_shutdown c = false) evs.
Proof.
  induction todo as [| todo IH]; intros i acc st wins st' H.
  - simpl in H. unfold ret in H. injection H as _ <-.
    exists []. rewrite app_nil_r. auto.
  - simpl in H. apply bind_ok in H. destruct H as (o & s & Hone & H).
    apply create_one_ok in Hone. cbv zeta in Hone.
    destruct Hone as (_ & _ & w & h & Htr & _).
    assert (Hcalls : Forall (fun c => is_shutdown c = false)
                            (create_calls i w h (env_create E (creates st)) o))
      by (destruct o; repeat constructor).
    destruct o as [rec |].
    + apply IH in H. destruct H as (evs & Htr' & F).
      eexists. rewrite Htr', Htr, <- app_assoc.
      split; [reflexivity | apply Forall_app; auto].
    + unfold ret in H. injection H as _ <-.
      eexists. split; [exact Htr | exact Hcalls].
Qed.

(** X9.  A run of [main] that returns 1 has called neither
    [glfwDestroyWindow] nor [glfwTerminate].  A run that returns 0 ends with
    the shutdown and has no call of it before: one [glfwDestroyWindow] for
    every window created, in the order of creation, then [glfwTerminate] as
    the last call. *)
Theorem shutdown_order (E : Env) (fuel : nat) (code : Z) (stf : State) :
  main E fuel initial_state = Ok (code, stf) ->
  (code = 1 /\ env_init_ok E = false /\
   Forall (fun c => is_shutdown c = false) (trace stf)) \/
  (code = 0 /\ env_init_ok E = true /\
   exists tr,
     trace stf = tr ++ map DestroyWindow (created_handles tr) ++ [Terminate] /\
     Forall (fun c => is_shutdown c = false) tr).
Proof.
  intros H. unfold main in H. assert (Hs := startup_run E).
  destruct (env_init_ok E).
  - right. split; [| split; [reflexivity |]].
    + rewrite (bind_run _ _ _ _ _ Hs) in H.
      apply bind_ok in H. destruct H as (wins & s2 & _ & H).
      apply bind_ok in H. destruct H as (wins' & s3 & _ & H).
      destruct (destroy_all_total wins' s3) as (evs & Hd).
      rewrite (bind_run _ _ _ _ _ Hd) in H.
      unfold glfwTerminate, emit, bind, modify, ret in H. injection H as <- _.
      reflexivity.
    + rewrite (bind_run _ _ _ _ _ Hs) in H.
      apply bind_ok in H. destruct H as (wins & s2 & Hc & H).
      apply bind_ok in H. destruct H as (wins' & s3 & Hl & H).
      unfold create_windows in Hc. assert (Hc' := Hc).
      apply create_loop_ok in Hc.
      destruct Hc as (new & evs & Hw & Htr & _ & _ & _ & Hnz & Hcr & _).
      simpl in Hw. subst wins.
      apply create_loop_no_shutdown in Hc'. destruct Hc' as (evs0 & Htr0 & F0).
      rewrite Htr in Htr0. apply app_inv_head in Htr0. subst evs0.
      destruct (main_loop_quiet E _ _ _ _ _ _ Hl) as (Hh & evs' & Htr' & C' & _).
      destruct (main_loop_no_shutdown E _ _ _ _ _ _ Hl) as (evs1 & Htr1 & F1).
      rewrite Htr' in Htr1. apply app_inv_head in Htr1. subst evs1.
      assert (Hnz' : Forall (fun w => Win.handle w <> 0%N) wins').
      { rewrite Forall_forall in *. intros w Hin. apply (in_map Win.handle) in Hin.
        rewrite Hh in Hin. apply in_map_iff in Hin. destruct Hin as (w0 & Heq & Hin).
        rewrite <- Heq. apply Hnz. exact Hin. }
      rewrite (bind_run _ _ _ _ _ (destroy_all_run wins' s3 Hnz')) in H.
      unfold glfwTerminate, emit, bind, modify, ret in H. injection H as _ <-.
      exists (trace s3). split.
      * cbn [advanced with_trace trace]. rewrite <- app_assoc.
        f_equal. f_equal.
        rewrite Htr', Htr. cbn [trace].
        rewrite !created_handles_app, Hcr, C'. simpl. rewrite app_nil_r.
        rewrite <- Hh, map_map. reflexivity.
      * rewrite Htr', Htr. cbn [trace].
        repeat (apply Forall_app; split); auto. repeat constructor.
  - left. rewrite (bind_run _ _ _ _ _ Hs) in H. unfold ret in H.
    injection H as <- <-. repeat split. repeat constructor.
Qed.

Lemma shutdown_order_witness :
  exists stf tr,
    main (demo_env true demo_area 3 press_Q) 5 initial_state = Ok (0, stf) /\
    trace stf = tr ++ map DestroyWindow [1; 2; 3]%N ++ [Terminate] /\
    Forall (fun c => is_shutdown c = false) tr.
Proof.
  assert (Hm : exists stf,
             main (demo_env true demo_area 3 press_Q) 5 initial_state = Ok (0, stf))
    by (eexists; vm_compute; reflexivity).
  destruct Hm as (stf & Hm).
  destruct (shutdown_order (demo_env true demo_area 3 press_Q) 5 0 stf Hm)
    as [(Hcode & _) | (_ & _ & tr & Htr & F)]; [discriminate |].
  exists stf, tr. split; [exact Hm |]. split; [| exact F].
  rewrite Htr. f_equal. f_equal.
  vm_compute in Hm. injection Hm as <-. cbn [trace] in Htr.
  assert (Hc : created_handles
                 (tr ++ map DestroyWindow (created_handles tr) ++ [Terminate])
               = created_handles tr).
  { rewrite !created_handles_app.
    replace (created_handles (map DestroyWindow (created_handles tr))) with (@nil N).
    - simpl. rewrite app_nil_r. reflexivity.
    - generalize (created_handles tr). intros l. induction l; simpl; auto. }
  rewrite <- Hc, <- Htr. reflexivity.
Defined.

(** ** The records mirror the windows *)

Lemma told_size_app tr evs h :
  told_size (tr ++ evs) h = fold_left (told_size_step h) evs (told_size tr h).
Proof. apply fold_left_app. Qed.

Lemma told_pos_app tr evs h :
  told_pos (tr ++ evs) h = fold_left (told_pos_step h) evs (told_pos tr h).
Proof. apply fold_left_app. Qed.

Lemma told_unchanged h evs : forall sacc pacc,
  Forall (fun c => geometry_call c = false) evs ->
  fold_left (told_size_step h) evs sacc = sacc /\
  fold_left (told_pos_step h) evs pacc = pacc.
Proof.
  induction evs as [| c evs IH]; intros sacc pacc HF; simpl; [auto |].
  inversion HF as [| ? ? Hc Hrest]; subst.
  destruct c; try discriminate; simpl; apply IH; assumption.
Qed.

Lemma mirrored_unchanged tr evs w :
  Forall (fun c => geometry_call c = false) evs ->
  mirrored tr w -> mirrored (tr ++ evs) w.
Proof.
  intros HF (Hs & Hp). unfold mirrored.
  rewrite told_size_app, told_pos_app.
  destruct (told_unchanged (Win.handle w) evs (told_size tr (Win.handle w))
              (told_pos tr (Win.handle w)) HF) as (-> & ->).
  auto.
Qed.

Lemma told_window h w w' sacc pacc :
  fold_left (told_size_step h) (window_calls w w') sacc =
    (if (Win.handle w =? h)%N && differs (Win.w w') (Win.w w) (Win.h w') (Win.h w)
     then Some (Win.w w', Win.h w') else sacc) /\
  fold_left (told_pos_step h) (window_calls w w') pacc =
    (if (Win.handle w =? h)%N && differs (Win.x w') (Win.x w) (Win.y w') (Win.y w)
     then Some (Win.x w', Win.y w') else pacc).
Proof.
  unfold window_calls, update_calls, render_calls.
  destruct (differs (Win.w w') _ _ _); destruct (differs (Win.x w') _ _ _);
    simpl; destruct (Win.handle w =? h)%N; auto.
Qed.

Lemma mirrored_window_same tr w w' :
  Win.handle w' = Win.handle w ->
  mirrored tr w -> mirrored (tr ++ window_calls w w') w'.
Proof.
  intros Hh (Hs & Hp). unfold mirrored.
  rewrite told_size_app, told_pos_app, Hh.
  destruct (told_window (Win.handle w) w w' (told_size tr (Win.handle w))
              (told_pos tr (Win.handle w))) as (-> & ->).
  rewrite N.eqb_refl. simpl. split.
  - destruct (differs (Win.w w') _ _ _) eqn:Hd; [reflexivity |].
    apply differs_false in Hd. injection Hd as -> ->. exact Hs.
  - destruct (differs (Win.x w') _ _ _) eqn:Hd; [reflexivity |].
    apply differs_false in Hd. injection Hd as -> ->. exact Hp.
Qed.

Lemma mirrored_window_other tr w w' u :
  Win.handle u <> Win.handle w ->
  mirrored tr u -> mirrored (tr ++ window_calls w w') u.
Proof.
  intros Hne (Hs & Hp). unfold mirrored.
  rewrite told_size_app, told_pos_app.
  destruct (told_window (Win.handle u) w w' (told_size tr (Win.handle u))
              (told_pos tr (Win.handle u))) as (-> & ->).
  assert (Hb : (Win.handle w =? Win.handle u)%N = false)
    by (apply N.eqb_neq; congruence).
  rewrite Hb. simpl. auto.
Qed.

Lemma mirrored_pass_calls wa pre pre' :
  Forall2 (jitter_of wa) pre pre' ->
  forall tr,
    NoDup (map Win.handle pre) ->
    Forall (mirrored tr) pre ->
    Forall (mirrored (tr ++ pass_calls pre pre')) pre' /\
    (forall u, ~ In (Win.handle u) (map Win.handle pre) ->
               mirrored tr u -> mirrored (tr ++ pass_calls pre pre') u).
Proof.
  intros HF. induction HF as [| w w' pre pre' Hj HF IH]; intros tr Hnd Hm.
  - simpl. rewrite app_nil_r. auto.
  - inversion Hnd as [| ? ? Hnotin Hnd']; subst.
    inversion Hm as [| ? ? Hw Hrest]; subst.
    destruct (jitter_of_same wa w w' Hj) as (Hh & _).
    cbn [pass_calls]. rewrite app_assoc.
    assert (Hrest1 : Forall (mirrored (tr ++ window_calls w w')) pre).
    { rewrite Forall_forall in *. intros x Hin.
      apply mirrored_window_other; [| apply Hrest; exact Hin].
      intros Heq. apply Hnotin. rewrite <- Heq. apply in_map. exact Hin. }
    destruct (IH (tr ++ window_calls w w') Hnd' Hrest1) as (I1 & I2).
    split.
    + constructor; [| exact I1].
      apply I2; [rewrite Hh; exact Hnotin |].
      apply mirrored_window_same; assumption.
    + intros u Hu Hmu. apply I2.
      * intros Hin. apply Hu. right. exact Hin.
      * apply mirrored_window_other; [| exact Hmu].
        intros Heq. apply Hu. left. symmetry. exact Heq.
Qed.

Lemma NoDup_app_apart {A} (l l' : list A) (a : A) :
  NoDup (l ++ l') -> In a l -> In a l' -> False.
Proof.
  induction l as [| b l IH]; simpl; intros Hnd Hin Hin'; [contradiction |].
  inversion Hnd as [| ? ? Hnot Hnd']; subst.
  destruct Hin as [-> | Hin].
  - apply Hnot. apply in_or_app. right. exact Hin'.
  - exact (IH Hnd' Hin Hin').
Qed.

Lemma frame_mirrored (E : Env) wa wins st wins' st' :
  NoDup (map Win.handle wins) ->
  Forall (mirrored (trace st)) wins ->
  frame E wa wins st = Ok (wins', st') ->
  Forall (mirrored (trace st')) wins'.
Proof.
  intros Hnd Hm Hf. apply frame_trace in Hf. cbv zeta in Hf.
  destruct Hf as (pre & pre' & post & -> & -> & HF & Htr).
  rewrite map_app in Hnd. apply Forall_app in Hm. destruct Hm as (Hpre & Hpost).
  assert (Hnd_pre : NoDup (map Win.handle pre)) by (apply (NoDup_app_remove_r _ _ Hnd)).
  rewrite Htr, app_assoc. unfold pass_events. rewrite !app_assoc.
  assert (Hhead : forall u, mirrored (trace st) u ->
                            mirrored (trace st ++ [ClockNow (env_clock E (clock_reads st));
                                                   PollEvents]) u).
  { intros u. apply mirrored_unchanged. repeat constructor. }
  destruct (mirrored_pass_calls wa pre pre' HF
              (trace st ++ [ClockNow (env_clock E (clock_reads st)); PollEvents]) Hnd_pre)
    as (I1 & I2).
  { eapply Forall_impl; [exact Hhead | exact Hpre]. }
  assert (Htail : forall u,
             mirrored ((trace st ++ [ClockNow (env_clock E (clock_reads st)); PollEvents])
                       ++ pass_calls pre pre') u ->
             mirrored ((((trace st ++ [ClockNow (env_clock E (clock_reads st)); PollEvents])
                         ++ pass_calls pre pre')
                        ++ match post with
                           | [] => []
                           | w :: _ => [WindowShouldClose (Win.handle w) true]
                           end)
                       ++ ClockNow (env_clock E (S (clock_reads st)))
                          :: pacing (seconds (env_clock E (clock_reads st))
                                             (env_clock E (S (clock_reads st))))) u).
  { intros u Hu. apply mirrored_unchanged.
    - constructor; [reflexivity |]. unfold pacing.
      destruct (Qle_bool _ 0); repeat constructor.
    - apply mirrored_unchanged; [destruct post; repeat constructor | exact Hu]. }
  apply Forall_app. split.
  - eapply Forall_impl; [exact Htail | exact I1].
  - rewrite Forall_forall in *. intros u Hin. apply Htail. apply I2.
    + intros Hin'. apply in_map_iff in Hin'. destruct Hin' as (x & Hx & Hxin).
      apply (in_map Win.handle) in Hin.
      apply (NoDup_app_apart _ _ (Win.handle u) Hnd).
      * rewrite <- Hx. apply in_map. exact Hxin.
      * exact Hin.
    + apply Hhead. apply Hpost. exact Hin.
Qed.

Lemma create_calls_mirrored tr i w h win o u :
  match o with
  | None => win = 0%N
  | Some rec => win <> 0%N /\ Win.handle rec = win /\ Win.w rec = w /\ Win.h rec = h
  end ->
  (forall rec, o = Some rec -> mirrored (tr ++ create_calls i w h win o) rec) /\
  (Win.handle u <> win -> mirrored tr u ->
   mirrored (tr ++ create_calls i w h win o) u).
Proof.
  intros Ho. split.
  - intros rec ->. destruct Ho as (_ & Hh & <- & <-).
    unfold mirrored. rewrite told_size_app, told_pos_app, Hh. simpl.
    rewrite N.eqb_refl. auto.
  - intros Hne (Hs & Hp). unfold mirrored.
    rewrite told_size_app, told_pos_app.
    assert (Hb : (win =? Win.handle u)%N = false) by (apply N.eqb_neq; congruence).
    destruct o as [rec |]; simpl; rewrite Hb; auto.
Qed.

Lemma create_loop_mirrored (E : Env) wa todo : forall i acc st wins st',
  fresh_handles E ->
  create_loop E wa todo i acc st = Ok (wins, st') ->
  Forall (mirrored (trace st)) acc ->
  Forall (fun a => Win.handle a <> 0%N /\
                   exists j, (j < creates st)%nat /\ Win.handle a = env_create E j) acc ->
  Forall (mirrored (trace st')) wins.
Proof.
  induction todo as [| todo IH]; intros i acc st wins st' Hfresh H Hm Hacc.
  - simpl in H. unfold ret in H. injection H as <- <-. exact Hm.
  - simpl in H. apply bind_ok in H. destruct H as (o & s & Hone & H).
    apply create_one_ok in Hone. cbv zeta in Hone.
    destruct Hone as (Hc & _ & w & h & Htr & Ho).
    assert (Ho' : match o with
                  | None => env_create E (creates st) = 0%N
                  | Some rec => env_create E (creates st) <> 0%N /\
                                Win.handle rec = env_create E (creates st) /\
                                Win.w rec = w /\ Win.h rec = h
                  end) by (destruct o; tauto).
    assert (Hold : Forall (mirrored (trace s)) acc).
    { rewrite Htr. rewrite Forall_forall in *. intros a Hin.
      destruct (Hacc a Hin) as (Hnz & j & Hj & Hh).
      apply (proj2 (create_calls_mirrored (trace st) i w h _ o a Ho'));
        [| apply Hm; exact Hin].
      intros Heq. destruct o as [rec |].
      - rewrite Hh in Heq.
        assert (j = creates st) by (apply Hfresh; congruence). lia.
      - congruence. }
    destruct o as [rec |].
    + apply (IH (S i) (acc ++ [rec]) s wins st' Hfresh H).
      * apply Forall_app. split; [exact Hold |]. constructor; [| constructor].
        rewrite Htr.
        exact (proj1 (create_calls_mirrored (trace st) i w h _ (Some rec) rec Ho')
                     rec eq_refl).
      * rewrite Hc. apply Forall_app. split.
        -- eapply Forall_impl; [| exact Hacc].
           intros a (Hnz & j & Hj & Hh). split; [exact Hnz |].
           exists j. split; [lia | exact Hh].
        -- constructor; [| constructor].
           destruct Ho' as (Hnz & Hh & _). split; [congruence |].
           exists (creates st). split; [lia | exact Hh].
    + unfold ret in H. injection H as <- <-. exact Hold.
Qed.

Lemma fresh_nodup (E : Env) n :
  fresh_handles E ->
  (forall j, (j < n)%nat -> env_create E j <> 0%N) ->
  NoDup (map (env_create E) (seq 0 n)).
Proof.
  intros Hfresh. induction n as [| n IH]; intros Hnz; [constructor |].
  rewrite seq_S, map_app. simpl. apply NoDup_app.
  - apply IH. intros j Hj. apply Hnz. lia.
  - constructor; [intros [] | constructor].
  - intros a Hin [<- | []]. apply in_map_iff in Hin.
    destruct Hin as (j & Heq & Hj). apply in_seq in Hj.
    assert (j = n) by (apply Hfresh; [exact Heq | apply Hnz; lia]). lia.
Qed.

(** X10.  If the library never hands out the same handle twice, every record
    of every pool the main loop reaches holds the size and the position the
    library was last told for its window (by [glfwCreateWindow],
    [glfwSetWindowSize] and [glfwSetWindowPos]): leaving out the calls that
    would change nothing never lets a record and its window drift apart.  The
    handles of a pool are pairwise different. *)
Theorem records_mirror_windows (E : Env) (wa : WorkArea) (wins : list Win.t)
        (st : State) :
  fresh_handles E ->
  reachable E wa wins st ->
  Forall (mirrored (trace st)) wins /\ NoDup (map Win.handle wins).
Proof.
  intros Hfresh Hr.
  induction Hr as [s1 wins s2 Hs Hc | wins st wins' st' _ IH _ Hf].
  - assert (Hc0 : creates s1 = 0%nat).
    { rewrite startup_run in Hs. destruct (env_init_ok E); [| discriminate].
      injection Hs as _ <-. reflexivity. }
    unfold create_windows in Hc. split.
    + apply (create_loop_mirrored E wa WINDOW_COUNT 0%nat [] s1 wins s2 Hfresh Hc);
        constructor.
    + apply create_loop_ok in Hc.
      destruct Hc as (new & evs & -> & _ & _ & _ & Hmap & Hnz & _).
      simpl. rewrite Hmap, Hc0. simpl.
      apply (fresh_nodup E (List.length new) Hfresh).
      intros j Hj Hz.
      assert (Hin : In (env_create E j) (map Win.handle new)).
      { rewrite Hmap, Hc0. simpl. apply in_map. apply in_seq. lia. }
      apply in_map_iff in Hin. destruct Hin as (w & Hw & Hin).
      rewrite Forall_forall in Hnz. apply (Hnz w Hin). congruence.
  - destruct IH as (Hm & Hnd).
    destruct (frame_colors E _ _ _ _ _ Hf) as (_ & Hh & _).
    split; [| rewrite Hh; exact Hnd].
    apply (frame_mirrored E wa wins st wins' st' Hnd Hm Hf).
Qed.

Lemma records_mirror_windows_witness :
  exists wins st,
    reachable (demo_env true demo_area 3 press_Q) demo_area wins st /\
    List.length wins = 3%nat /\
    Forall (mirrored (trace st)) wins.
Proof.
  assert (Hr : exists wins st,
             reachable (demo_env true demo_area 3 press_Q) demo_area wins st /\
             List.length wins = 3%nat).
  { eexists _, _. split.
    - eapply reach_frame.
      + eapply reach_init; [rewrite startup_run; reflexivity | vm_compute; reflexivity].
      + reflexivity.
      + vm_compute. reflexivity.
    - reflexivity. }
  destruct Hr as (wins & st & Hr & Hl).
  exists wins, st. split; [exact Hr |]. split; [exact Hl |].
  apply (records_mirror_windows (demo_env true demo_area 3 press_Q) demo_area wins st);
    [| exact Hr].
  intros i j Heq Hnz. simpl in Heq, Hnz.
  destruct (Nat.ltb_spec i 3) as [Hi | Hi]; [| congruence].
  destruct (Nat.ltb_spec j 3) as [Hj | Hj]; [lia | ].
  exfalso. lia.
Defined.

(** ** A step repairs a record *)

(** X11.  Whatever a record holds and whatever the work area is, a step that
    completes leaves the record within the size range and inside the work
    area: the clamps of lines 135-139 do not rely on the record having been
    within bounds before. *)
Theorem step_lands_in_bounds (E : Env) (wa : WorkArea) (w : Win.t) (st : State)
        (w' : Win.t) (st' : State) :
  jitter_window E wa w st = Ok (w', st') -> in_bounds wa w'.
Proof.
  intros H. apply jitter_window_ok in H. destruct H as (Hj & _).
  exact (jitter_of_in_bounds wa w w' Hj).
Qed.

Lemma step_lands_in_bounds_witness :
  ~ in_bounds demo_area stray_win /\
  exists w' st',
    jitter_window (scripted_env demo_area [41; 40; 8; 8]%N) demo_area stray_win
                  initial_state = Ok (w', st') /\
    in_bounds demo_area w'.
Proof.
  split.
  - unfold in_bounds, sized, MIN_SIZE. simpl. lia.
  - destruct (jitter_window (scripted_env demo_area [41; 40; 8; 8]%N) demo_area stray_win
                initial_state) as [[w' st'] | u |] eqn:H;
      [| vm_compute in H; discriminate ..].
    exists w', st'. split; [reflexivity |].
    exact (step_lands_in_bounds _ _ _ _ _ _ H).
Defined.

(** ** Titles and diagnostics *)

Lemma create_loop_texts (E : Env) wa todo : forall i acc st wins st',
  create_loop E wa todo i acc st = Ok (wins, st') ->
  exists new evs,
    wins = acc ++ new /\ trace st' = trace st ++ evs /\
    titles evs =
      map title (seq i (List.length new +
                        (if (List.length new <? todo)%nat then 1 else 0))) /\
    stderr_lines evs =
      (if (List.length new <? todo)%nat
       then [create_failure (i + List.length new)] else []).
Proof.
  induction todo as [| todo IH]; intros i acc st wins st' H.
  - simpl in H. unfold ret in H. injection H as <- <-.
    exists [], []. rewrite !app_nil_r. auto.
  - simpl in H. apply bind_ok in H. destruct H as (o & s & Hone & H).
    apply create_one_ok in Hone. cbv zeta in Hone.
    destruct Hone as (_ & _ & w & h & Htr & _).
    destruct o as [rec |].
    + apply IH in H. destruct H as (new & evs & -> & Htr' & Ht & He).
      exists (rec :: new), (create_calls i w h (env_create E (creates st)) (Some rec) ++ evs).
      rewrite <- app_assoc. split; [reflexivity |].
      rewrite Htr', Htr, <- app_assoc. split; [reflexivity |].
      unfold titles, stderr_lines in *. rewrite !flat_map_app, Ht, He.
      simpl List.length.
      change (S (List.length new) <? S todo)%nat with (List.length new <? todo)%nat.
      split; [reflexivity |].
      replace (i + S (List.length new))%nat with (S i + List.length new)%nat by lia.
      reflexivity.
    + unfold ret in H. injection H as <- <-.
      exists [], (create_calls i w h (env_create E (creates st)) None).
      rewrite app_nil_r. split; [reflexivity |]. split; [exact Htr |].
      simpl. rewrite Nat.add_0_r. auto.
Qed.

Lemma frame_texts (E : Env) wa wins st wins' st' :
  frame E wa wins st = Ok (wins', st') ->
  exists evs, trace st' = trace st ++ evs /\ titles evs = [] /\ stderr_lines evs = [].
Proof.
  intros H. apply frame_trace in H. cbv zeta in H.
  destruct H as (pre & pre' & post & _ & _ & _ & Htr).
  eexists. split; [exact Htr |].
  assert (Hp : titles (pass_events pre pre' post) = [] /\
               stderr_lines (pass_events pre pre' post) = []).
  { split; apply (flat_map_nothing _ (fun c => pass_call c = true));
      try apply pass_calls_are_pass_calls;
      intros [] Hc; try reflexivity; discriminate. }
  destruct Hp as (P1 & P2).
  unfold titles, stderr_lines in *. rewrite !flat_map_app, P1, P2.
  unfold pacing. destruct (Qle_bool _ 0); auto.
Qed.

Lemma main_loop_texts (E : Env) wa fuel : forall wins st wins' st',
  main_loop E wa fuel wins st = Ok (wins', st') ->
  exists evs, trace st' = trace st ++ evs /\ titles evs = [] /\ stderr_lines evs = [].
Proof.
  induction fuel as [| fuel IH]; intros wins st wins' st' H;
    destruct (proj2 (main_loop_ok E _ _ _ _ _ _ H))
      as [Heq | (wins1 & st1 & _ & Hf & fuel' & Hfuel & Hrest)].
  - injection Heq as -> ->. exists []. rewrite app_nil_r. auto.
  - discriminate.
  - injection Heq as -> ->. exists []. rewrite app_nil_r. auto.
  - injection Hfuel as <-.
    destruct (frame_texts E _ _ _ _ _ Hf) as (evs1 & Ht1 & A1 & B1).
    destruct (IH _ _ _ _ Hrest) as (evs2 & Ht2 & A2 & B2).
    exists (evs1 ++ evs2). rewrite Ht2, Ht1, <- app_assoc.
    unfold titles, stderr_lines in *. rewrite !flat_map_app, A1, A2, B1, B2. auto.
Qed.

(** X12.  A run of [main] that returns writes at most one line to [stderr]:
    the report of the failed [glfwInit] when it returns 1; otherwise none if
    all [WINDOW_COUNT] windows were created, else the report of the one
    failed request, which is the last request made.  The requests are titled
    [Window 1], [Window 2], ... in the order they are made. *)
Theorem diagnostics (E : Env) (fuel : nat) (code : Z) (stf : State) :
  main E fuel initial_state = Ok (code, stf) ->
  (code = 1 /\ titles (trace stf) = [] /\
   stderr_lines (trace stf) = [("Failed to init GLFW" ++ newline)%string]) \/
  (code = 0 /\
   exists n,
     (n <= WINDOW_COUNT)%nat /\
     List.length (created_handles (trace stf)) = n /\
     titles (trace stf) =
       map title (seq 0 (n + (if (n <? WINDOW_COUNT)%nat then 1 else 0))) /\
     stderr_lines (trace stf) =
       (if (n <? WINDOW_COUNT)%nat then [create_failure n] else [])).
Proof.
  intros H. unfold main in H. assert (Hs := startup_run E).
  destruct (env_init_ok E).
  - right. rewrite (bind_run _ _ _ _ _ Hs) in H.
    apply bind_ok in H. destruct H as (wins & s2 & Hc & H).
    apply bind_ok in H. destruct H as (wins' & s3 & Hl & H).
    destruct (destroy_all_total wins' s3) as (devs & Hd).
    assert (Hd' := Hd). rewrite destroy_all_filter in Hd'.
    rewrite (bind_run _ _ _ _ _ Hd) in H.
    unfold glfwTerminate, emit, bind, modify, ret in H. injection H as <- <-.
    split; [reflexivity |].
    unfold create_windows in Hc. assert (Hc' := Hc).
    apply create_loop_ok in Hc.
    destruct Hc as (new & evs & Hw & Htr & _ & _ & _ & _ & Hcr & _ & Hlen & _).
    apply create_loop_texts in Hc'.
    destruct Hc' as (new' & evs' & Hw' & Htr' & Ht & He).
    simpl in Hw, Hw'. subst wins. subst new'.
    rewrite Htr in Htr'. apply app_inv_head in Htr'. subst evs'.
    destruct (main_loop_quiet E _ _ _ _ _ _ Hl) as (_ & levs & Hlt & LC & _).
    destruct (main_loop_texts E _ _ _ _ _ _ Hl) as (levs' & Hlt' & LT & LE).
    rewrite Hlt in Hlt'. apply app_inv_head in Hlt'. subst levs'.
    injection Hd' as Hdevs.
    exists (List.length new). split; [exact Hlen |].
    cbn [advanced with_trace trace]. rewrite Hlt, Htr. cbn [trace].
    unfold titles, stderr_lines in *.
    rewrite !created_handles_app, !flat_map_app, Hcr, LC, Ht, He, LT, LE.
    assert (Hq : created_handles devs = [] /\
                 flat_map (fun c => match c with CreateWindow _ _ t _ => [t] | _ => [] end)
                          devs = [] /\
                 flat_map (fun c => match c with Stderr s => [s] | _ => [] end) devs = []).
    { assert (Hdd : Forall (fun c => exists h, c = DestroyWindow h) devs).
      { apply app_inv_head in Hdevs. rewrite <- Hdevs.
        apply Forall_forall. intros c Hin. apply in_map_iff in Hin.
        destruct Hin as (h & <- & _). exists h. reflexivity. }
      repeat split;
        apply (flat_map_nothing _ (fun c => exists h, c = DestroyWindow h));
        try exact Hdd; intros c (h & ->); reflexivity. }
    destruct Hq as (Q1 & Q2 & Q3). rewrite Q1, Q2, Q3. simpl.
    rewrite !app_nil_r, length_map. auto.
  - left. rewrite (bind_run _ _ _ _ _ Hs) in H. unfold ret in H.
    injection H as <- <-. auto.
Qed.

Lemma diagnostics_witness :
  exists stf,
    main (demo_env true demo_area 3 press_Q) 5 initial_state = Ok (0, stf) /\
    titles (trace stf) = ["Window 1"; "Window 2"; "Window 3"; "Window 4"]%string /\
    stderr_lines (trace stf) = [create_failure 3].
Proof.
  assert (Hm : exists stf,
             main (demo_env true demo_area 3 press_Q) 5 initial_state = Ok (0, stf) /\
             List.length (created_handles (trace stf)) = 3%nat)
    by (eexists; split; [vm_compute; reflexivity | reflexivity]).
  destruct Hm as (stf & Hm & Hlen).
  destruct (diagnostics (demo_env true demo_area 3 press_Q) 5 0 stf Hm)
    as [(Hcode & _) | (_ & n & _ & Hn & Ht & He)]; [discriminate |].
  rewrite Hlen in Hn. subst n.
  exists stf. split; [exact Hm |]. split; [rewrite Ht | rewrite He]; reflexivity.
Defined.

(** ** Quitting from any window *)

Lemma mem_In h l : mem h l = true <-> In h l.
Proof.
  unfold mem. rewrite existsb_exists. split.
  - intros (x & Hin & Heq). apply N.eqb_eq in Heq. subst x. exact Hin.
  - intros Hin. exists h. split; [exact Hin | apply N.eqb_refl].
Qed.

Lemma reachable_callbacks (E : Env) wa wins st :
  reachable E wa wins st -> key_callbacks st = List.rev (map Win.handle wins).
Proof.
  intros Hr. induction Hr as [s1 wins s2 Hs Hc | wins st wins' st' _ IH _ Hf].
  - assert (Hk0 : key_callbacks s1 = []).
    { rewrite startup_run in Hs. destruct (env_init_ok E); [| discriminate].
      injection Hs as _ <-. reflexivity. }
    unfold create_windows in Hc. apply create_loop_callbacks in Hc.
    destruct Hc as (new & -> & Hk & _). rewrite Hk, Hk0, app_nil_r. reflexivity.
  - destruct (frame_colors E _ _ _ _ _ Hf) as (_ & Hh & _).
    destruct (frame_callbacks E _ _ _ _ _ Hf) as (Hk & _).
    rewrite Hk, Hh. exact IH.
Qed.

(** X13.  At the head of any iteration of a session, a press of [Q] or [Esc]
    delivered to any window of the pool by the iteration's poll, or a close
    request for any window of the pool, ends the session with this iteration:
    every window of the pool has the key callback, so the main loop returns
    right after the iteration, whatever number of iterations it is allowed. *)
Theorem any_window_quits (E : Env) (wa : WorkArea) (wins : list Win.t) (st : State)
        (w : Win.t) (fuel : nat) (wins' : list Win.t) (st' : State) :
  reachable E wa wins st ->
  g_quit st = false ->
  In w wins ->
  (exists key scancode mods,
      In (KeyInput (Win.handle w) key scancode GLFW_PRESS mods)
         (env_poll E (polls st)) /\
      (key = GLFW_KEY_ESCAPE \/ key = GLFW_KEY_Q)) \/
  In (CloseInput (Win.handle w)) (env_poll E (polls st)) ->
  frame E wa wins st = Ok (wins', st') ->
  g_quit st' = true /\ main_loop E wa (S fuel) wins st = Ok (wins', st').
Proof.
  intros Hr Hq Hin Hinput Hf.
  assert (Hq' : g_quit st' = true).
  { apply (frame_quits E wa wins st wins' st' Hf).
    destruct Hinput as [(key & sc & mods & Hp & Hkey) | Hclose].
    - left. exists (Win.handle w), key, sc, mods. repeat split; auto.
      rewrite (reachable_callbacks E wa wins st Hr). apply mem_In.
      apply -> in_rev. apply in_map. exact Hin.
    - right. exists w. auto. }
  split; [exact Hq' |].
  rewrite (main_loop_step E _ _ _ _ Hq), (bind_run _ _ _ _ _ Hf).
  apply main_loop_quit. exact Hq'.
Qed.

Lemma any_window_quits_witness :
  exists wins st w wins' st',
    reachable (demo_env true demo_area 3 press_Q) demo_area wins st /\
    In w wins /\ Win.handle w = 1%N /\
    frame (demo_env true demo_area 3 press_Q) demo_area wins st = Ok (wins', st') /\
    g_quit st' = true /\
    main_loop (demo_env true demo_area 3 press_Q) demo_area 9 wins st = Ok (wins', st').
Proof.
  eexists _, _, _, _, _.
  split.
  { eapply reach_frame.
    - eapply reach_frame.
      + eapply reach_init; [rewrite startup_run; reflexivity | vm_compute; reflexivity].
      + reflexivity.
      + vm_compute. reflexivity.
    - reflexivity.
    - vm_compute. reflexivity. }
  split; [left; reflexivity |].
  split; [reflexivity |].
  split; [vm_compute; reflexivity |].
  eapply (any_window_quits (demo_env true demo_area 3 press_Q) demo_area _ _ _ 8).
  - eapply reach_frame.
    + eapply reach_frame.
      * eapply reach_init; [rewrite startup_run; reflexivity | vm_compute; reflexivity].
      * reflexivity.
      * vm_compute. reflexivity.
    + reflexivity.
    + vm_compute. reflexivity.
  - reflexivity.
  - left. reflexivity.
  - left. exists GLFW_KEY_Q, 0, 0. split; [left; reflexivity | right; reflexivity].
  - vm_compute. reflexivity.
Defined.
